(** * Car Scanner: the request adapter and the interaction controller

    A shallow embedding of [src/services/geminiService.ts] (the request
    adapter [analyzeCarImage]) and of the state handling of
    [src/App.tsx] (the [App] component: [handleFileSelect], [handleScan],
    [resetState] and the conditions under which its controls are
    rendered), followed by the properties proved about them. *)

From Stdlib Require Import NArith Ascii String.
From stdpp Require Import base option list gmap.

Local Open Scope N_scope.

(** ** JavaScript strings

    A JavaScript string is a sequence of UTF-16 code units.  [str] turns
    an ASCII literal into such a sequence. *)
Module JS.

Definition jsstring : Type := list N.

Definition str (s : string) : jsstring :=
  List.map N_of_ascii (list_ascii_of_string s).

Definition chr (a : ascii) : N := N_of_ascii a.

(** The code unit of the double quote. *)
Definition dquote : N := 34.

(** [quoted s] is [s] between double quotes, as a string literal of a
    JSON text is written. *)
Definition quoted (s : string) : jsstring := dquote :: str s ++ [dquote].

Fixpoint jsstring_eqb (a b : jsstring) : bool :=
  match a, b with
  | [], [] => true
  | x :: a', y :: b' => (x =? y) && jsstring_eqb a' b'
  | _, _ => false
  end.

(** Truthiness of a string value: every string but the empty one. *)
Definition truthy_string (s : jsstring) : bool :=
  match s with [] => false | _ :: _ => true end.

(** Truthiness of [string | undefined] (or [string | null]). *)
Definition truthy (v : option jsstring) : bool :=
  match v with None => false | Some s => truthy_string s end.

(** WhiteSpace and LineTerminator code points, the ones that
    [String.prototype.trim] strips. *)
Definition is_trim_space (c : N) : bool :=
  (c =? 9) || (c =? 10) || (c =? 11) || (c =? 12) || (c =? 13) || (c =? 32)
  || (c =? 160) || (c =? 5760) || ((8192 <=? c) && (c <=? 8202))
  || (c =? 8232) || (c =? 8233) || (c =? 8239) || (c =? 8287)
  || (c =? 12288) || (c =? 65279).

Fixpoint trim_start (s : jsstring) : jsstring :=
  match s with
  | [] => []
  | c :: s' => if is_trim_space c then trim_start s' else s
  end.

(** [s.trim()] *)
Definition trim (s : jsstring) : jsstring :=
  rev (trim_start (rev (trim_start s))).

(** [s.split(sep)] for a separator of one code unit: never empty. *)
Fixpoint split (sep : N) (s : jsstring) : list jsstring :=
  match s with
  | [] => [[]]
  | c :: s' =>
      if c =? sep then [] :: split sep s'
      else match split sep s' with
           | h :: t => (c :: h) :: t
           | [] => [[c]]
           end
  end.

End JS.
Export JS.

(** ** JSON.parse

    The platform's [JSON.parse], following the JSON grammar (ECMA-404):
    a lexer that is a state machine over the code units and a pushdown
    automaton over the tokens.  Both are structurally recursive, so
    [JSON_parse] is total: [None] stands for the SyntaxError.  A number
    keeps its literal, its floating-point value is not computed.  An
    object is the list of its members in order of first insertion; a
    repeated key overwrites the value of the earlier member. *)
Module Json.

#[warnings="-register-all"]
Inductive JSON : Type :=
  | JNull
  | JBool (b : bool)
  | JNumber (literal : jsstring)
  | JString (s : jsstring)
  | JArray (items : list JSON)
  | JObject (members : list (jsstring * JSON)).

Inductive token : Type :=
  | TLBrace | TRBrace | TLBracket | TRBracket | TColon | TComma
  | TString (s : jsstring)
  | TNumber (literal : jsstring)
  | TTrue | TFalse | TNull.

(** *** Lexer *)

Definition is_json_space (c : N) : bool :=
  (c =? 9) || (c =? 10) || (c =? 13) || (c =? 32).

Definition is_digit (c : N) : bool := (48 <=? c) && (c <=? 57).

Definition is_lower (c : N) : bool := (97 <=? c) && (c <=? 122).

(** The code units a number literal is made of. *)
Definition is_number_char (c : N) : bool :=
  is_digit c || (c =? chr "-") || (c =? chr "+") || (c =? chr ".")
  || (c =? chr "e") || (c =? chr "E").

Definition hex_value (c : N) : option N :=
  if is_digit c then Some (c - 48)
  else if (97 <=? c) && (c <=? 102) then Some (c - 87)
  else if (65 <=? c) && (c <=? 70) then Some (c - 55)
  else None.

Fixpoint drop_digits (s : jsstring) : jsstring :=
  match s with
  | [] => []
  | c :: s' => if is_digit c then drop_digits s' else s
  end.

(** One digit or more, then the rest. *)
Definition digits1 (s : jsstring) : option jsstring :=
  match s with
  | c :: s' => if is_digit c then Some (drop_digits s') else None
  | [] => None
  end.

(** number = [-] int [frac] [exp], int without a leading zero. *)
Definition valid_number (s : jsstring) : bool :=
  let s1 := match s with
            | c :: s' => if c =? chr "-" then s' else s
            | [] => s
            end in
  let after_int :=
    match s1 with
    | c :: s' =>
        if c =? chr "0" then Some s'
        else if is_digit c then Some (drop_digits s')
        else None
    | [] => None
    end in
  let after_frac :=
    match after_int with
    | Some (c :: s') => if c =? chr "." then digits1 s' else after_int
    | other => other
    end in
  let after_exp :=
    match after_frac with
    | Some (c :: s') =>
        if (c =? chr "e") || (c =? chr "E") then
          match s' with
          | d :: s'' =>
              if (d =? chr "+") || (d =? chr "-") then digits1 s''
              else digits1 s'
          | [] => None
          end
        else after_frac
    | other => other
    end in
  match after_exp with
  | Some [] => true
  | _ => false
  end.

Inductive lexstate : Type :=
  | LStart
  | LString (acc : jsstring)
  | LEscape (acc : jsstring)
  | LUnicode (acc : jsstring) (seen : nat) (value : N)
  | LNumber (acc : jsstring)
  | LWord (acc : jsstring).

(** The accumulators hold the code units read so far, last one first. *)
Definition number_token (acc : jsstring) : option token :=
  let lit := rev acc in
  if valid_number lit then Some (TNumber lit) else None.

Definition word_token (acc : jsstring) : option token :=
  let w := rev acc in
  if jsstring_eqb w (str "true") then Some TTrue
  else if jsstring_eqb w (str "false") then Some TFalse
  else if jsstring_eqb w (str "null") then Some TNull
  else None.

Definition lex_start (c : N) : option (lexstate * list token) :=
  if is_json_space c then Some (LStart, [])
  else if c =? chr "{" then Some (LStart, [TLBrace])
  else if c =? chr "}" then Some (LStart, [TRBrace])
  else if c =? chr "[" then Some (LStart, [TLBracket])
  else if c =? chr "]" then Some (LStart, [TRBracket])
  else if c =? chr ":" then Some (LStart, [TColon])
  else if c =? chr "," then Some (LStart, [TComma])
  else if c =? dquote then Some (LString [], [])
  else if is_digit c || (c =? chr "-") then Some (LNumber [c], [])
  else if is_lower c then Some (LWord [c], [])
  else None.

Definition lex_step (st : lexstate) (c : N) : option (lexstate * list token) :=
  match st with
  | LStart => lex_start c
  | LString acc =>
      if c =? dquote then Some (LStart, [TString (rev acc)])
      else if c =? chr "\" then Some (LEscape acc, [])
      else if c <? 32 then None
      else Some (LString (c :: acc), [])
  | LEscape acc =>
      if c =? dquote then Some (LString (dquote :: acc), [])
      else if c =? chr "\" then Some (LString (chr "\" :: acc), [])
      else if c =? chr "/" then Some (LString (chr "/" :: acc), [])
      else if c =? chr "b" then Some (LString (8 :: acc), [])
      else if c =? chr "f" then Some (LString (12 :: acc), [])
      else if c =? chr "n" then Some (LString (10 :: acc), [])
      else if c =? chr "r" then Some (LString (13 :: acc), [])
      else if c =? chr "t" then Some (LString (9 :: acc), [])
      else if c =? chr "u" then Some (LUnicode acc 0 0, [])
      else None
  | LUnicode acc seen value =>
      match hex_value c with
      | Some h =>
          let value' := value * 16 + h in
          if Nat.eqb seen 3 then Some (LString (value' :: acc), [])
          else Some (LUnicode acc (S seen) value', [])
      | None => None
      end
  | LNumber acc =>
      if is_number_char c then Some (LNumber (c :: acc), [])
      else
        match number_token acc, lex_start c with
        | Some t, Some (st', ts) => Some (st', t :: ts)
        | _, _ => None
        end
  | LWord acc =>
      if is_lower c then Some (LWord (c :: acc), [])
      else
        match word_token acc, lex_start c with
        | Some t, Some (st', ts) => Some (st', t :: ts)
        | _, _ => None
        end
  end.

(** What the end of the text makes of the state the lexer is in. *)
Definition lex_end (st : lexstate) : option (list token) :=
  match st with
  | LStart => Some []
  | LNumber acc => option_map (fun t => [t]) (number_token acc)
  | LWord acc => option_map (fun t => [t]) (word_token acc)
  | LString _ | LEscape _ | LUnicode _ _ _ => None
  end.

Fixpoint lex (st : lexstate) (s : jsstring) : option (list token) :=
  match s with
  | [] => lex_end st
  | c :: s' =>
      match lex_step st c with
      | Some (st', ts) => option_map (app ts) (lex st' s')
      | None => None
      end
  end.

(** *** Parser *)

(** [obj[key] = v] on the member list. *)
Fixpoint set_member (key : jsstring) (v : JSON) (ms : list (jsstring * JSON))
  : list (jsstring * JSON) :=
  match ms with
  | [] => [(key, v)]
  | (k, x) :: ms' =>
      if jsstring_eqb k key then (k, v) :: ms'
      else (k, x) :: set_member key v ms'
  end.

(** [obj[key]]: [None] for undefined. *)
Fixpoint get_member (key : jsstring) (ms : list (jsstring * JSON)) : option JSON :=
  match ms with
  | [] => None
  | (k, x) :: ms' => if jsstring_eqb k key then Some x else get_member key ms'
  end.

(** An enclosing array or object under construction; the elements of an
    array are held last one first. *)
Inductive frame : Type :=
  | FArray (done : list JSON)
  | FObject (done : list (jsstring * JSON)) (key : jsstring).

Inductive pstate : Type :=
  | PValue (stk : list frame)
  | PArrayFirst (stk : list frame)
  | PArrayNext (done : list JSON) (stk : list frame)
  | PObjectFirst (stk : list frame)
  | PObjectKey (done : list (jsstring * JSON)) (stk : list frame)
  | PObjectColon (done : list (jsstring * JSON)) (key : jsstring) (stk : list frame)
  | PObjectNext (done : list (jsstring * JSON)) (stk : list frame)
  | PDone (v : JSON).

(** A finished value goes to the innermost enclosing frame. *)
Definition deliver (v : JSON) (stk : list frame) : pstate :=
  match stk with
  | [] => PDone v
  | FArray done :: stk' => PArrayNext (v :: done) stk'
  | FObject done key :: stk' => PObjectNext (set_member key v done) stk'
  end.

Definition parse_value (t : token) (stk : list frame) : option pstate :=
  match t with
  | TNull => Some (deliver JNull stk)
  | TTrue => Some (deliver (JBool true) stk)
  | TFalse => Some (deliver (JBool false) stk)
  | TNumber lit => Some (deliver (JNumber lit) stk)
  | TString s => Some (deliver (JString s) stk)
  | TLBracket => Some (PArrayFirst stk)
  | TLBrace => Some (PObjectFirst stk)
  | TRBrace | TRBracket | TColon | TComma => None
  end.

Definition parse_step (st : pstate) (t : token) : option pstate :=
  match st, t with
  | PValue stk, _ => parse_value t stk
  | PArrayFirst stk, TRBracket => Some (deliver (JArray []) stk)
  | PArrayFirst stk, _ => parse_value t (FArray [] :: stk)
  | PArrayNext done stk, TComma => Some (PValue (FArray done :: stk))
  | PArrayNext done stk, TRBracket => Some (deliver (JArray (rev done)) stk)
  | PArrayNext _ _, _ => None
  | PObjectFirst stk, TRBrace => Some (deliver (JObject []) stk)
  | PObjectFirst stk, TString k => Some (PObjectColon [] k stk)
  | PObjectFirst _, _ => None
  | PObjectKey done stk, TString k => Some (PObjectColon done k stk)
  | PObjectKey _ _, _ => None
  | PObjectColon done k stk, TColon => Some (PValue (FObject done k :: stk))
  | PObjectColon _ _ _, _ => None
  | PObjectNext done stk, TComma => Some (PObjectKey done stk)
  | PObjectNext done stk, TRBrace => Some (deliver (JObject done) stk)
  | PObjectNext _ _, _ => None
  | PDone _, _ => None
  end.

Fixpoint parse (st : pstate) (ts : list token) : option JSON :=
  match ts with
  | [] => match st with PDone v => Some v | _ => None end
  | t :: ts' =>
      match parse_step st t with
      | Some st' => parse st' ts'
      | None => None
      end
  end.

(** [JSON.parse(text)]; [None] when it throws. *)
Definition JSON_parse (text : jsstring) : option JSON :=
  match lex LStart text with
  | Some ts => parse (PValue []) ts
  | None => None
  end.

End Json.
Export Json.

(** ** The result record, [src/types.ts] *)
Module Types.

(** Modelled from the spec: the [CarAnalysis] interface of [src/types.ts],
    which is imported by both source files but is not among them.  The
    spec's AnalysisResult has four required string fields, the ones the
    response schema of the adapter requires and [ResultCard] renders. *)
Record CarAnalysis : Type := {
  make : jsstring;
  model : jsstring;
  color : jsstring;
  year : jsstring;
}.

Definition string_member (key : string) (ms : list (jsstring * JSON))
  : option jsstring :=
  match get_member (str key) ms with
  | Some (JString s) => Some s
  | _ => None
  end.

(** The JSON values that are [CarAnalysis] records: objects whose
    [make], [model], [color] and [year] members are strings. *)
Definition asCarAnalysis (v : JSON) : option CarAnalysis :=
  match v with
  | JObject ms =>
      match string_member "make" ms, string_member "model" ms,
            string_member "color" ms, string_member "year" ms with
      | Some a, Some b, Some c, Some d =>
          Some {| make := a; model := b; color := c; year := d |}
      | _, _, _, _ => None
      end
  | _ => None
  end.

End Types.
Export Types.

(** ** The request adapter, [src/services/geminiService.ts] *)
Module GeminiService.

(** A [File]: its name, its MIME type and its bytes. *)
Record File : Type := {
  file_name : jsstring;
  file_type : jsstring;
  file_bytes : list N;
}.

Inductive ErrorName : Type := Error | TypeError | SyntaxError | ApiError.

(** What a [throw] or a rejected promise carries: an error object with
    its [message], or the [ProgressEvent] that a [FileReader] hands to
    [onerror], which has no [message] property. *)
Inductive Thrown : Type :=
  | Exn (name : ErrorName) (message : jsstring)
  | ProgressEvent.

Inductive Completion (A : Type) : Type :=
  | Normal (a : A)
  | Abrupt (e : Thrown).
Arguments Normal {A} a.
Arguments Abrupt {A} e.

(** The parts of a request and the response schema. *)
Inductive Part : Type :=
  | TextPart (text : jsstring)
  | InlineDataPart (data : option jsstring) (mimeType : jsstring).

Inductive SchemaType : Type := OBJECT | STRING.

Record Property : Type := {
  prop_type : SchemaType;
  prop_description : jsstring;
}.

Record Schema : Type := {
  schema_type : SchemaType;
  schema_properties : list (jsstring * Property);
  schema_required : list jsstring;
}.

Record GenerateContentParameters : Type := {
  gen_model : jsstring;
  gen_parts : list Part;
  gen_responseMimeType : jsstring;
  gen_responseSchema : Schema;
}.

(** How a [FileReader] ends [readAsDataURL]: the [loadend] event with
    [reader.result] (a string, or [None] for anything else), or the
    [error] event, which comes before [loadend]. *)
Inductive ReadOutcome : Type :=
  | LoadEnd (result : option jsstring)
  | ReadError.

(** How [ai.models.generateContent] settles: resolved with a response
    whose [text] is a string or undefined, or rejected. *)
Inductive GenerateOutcome : Type :=
  | Resolved (text : option jsstring)
  | Rejected (e : Thrown).

(** What the adapter does to the outside, in order. *)
Inductive Effect : Type :=
  | EReadAsDataURL (file : File)
  | EGenerateContent (params : GenerateContentParameters)
  | EConsoleError (label : jsstring) (e : Thrown).

(** The surroundings of one invocation: the process configuration, the
    file reader, the remote service, and the message texts of the errors
    the engine itself raises. *)
Record Env : Type := {
  API_KEY : option jsstring;
  readAsDataURL : File -> ReadOutcome;
  generateContent : GenerateContentParameters -> GenerateOutcome;
  type_error_message : jsstring;
  syntax_error_message : jsstring -> jsstring;
}.

(** An asynchronous computation, seen from its caller: the effects it
    performed and how it completed. *)
Definition Async (A : Type) : Type := Env -> list Effect * Completion A.

Definition ret {A} (a : A) : Async A := fun _ => ([], Normal a).

Definition throw {A} (e : Thrown) : Async A := fun _ => ([], Abrupt e).

Definition bind {A B} (m : Async A) (k : A -> Async B) : Async B :=
  fun env =>
    match m env with
    | (t1, Normal a) => let (t2, c) := k a env in (t1 ++ t2, c)
    | (t1, Abrupt e) => (t1, Abrupt e)
    end.

(** [try { m } catch (error) { h error }] *)
Definition try_catch {A} (m : Async A) (h : Thrown -> Async A) : Async A :=
  fun env =>
    match m env with
    | (t1, Normal a) => (t1, Normal a)
    | (t1, Abrupt e) => let (t2, c) := h e env in (t1 ++ t2, c)
    end.

Definition ask {A} (f : Env -> A) : Async A := fun env => ([], Normal (f env)).

Definition perform {A} (eff : Effect) (answer : Env -> Completion A) : Async A :=
  fun env => ([eff], answer env).

Notation "'let*' x ':=' m 'in' k" := (bind m (fun x => k))
  (at level 10, x name, m at level 100, k at level 200).

Definition read_file (file : File) : Async ReadOutcome :=
  perform (EReadAsDataURL file) (fun env => Normal (readAsDataURL env file)).

Definition models_generateContent (params : GenerateContentParameters)
  : Async (option jsstring) :=
  perform (EGenerateContent params)
    (fun env =>
       match generateContent env params with
       | Resolved text => Normal text
       | Rejected e => Abrupt e
       end).

Definition console_error (label : jsstring) (e : Thrown) : Async unit :=
  perform (EConsoleError label e) (fun _ => Normal tt).

(** [text.trim()] on a [string | undefined]. *)
Definition text_trim (text : option jsstring) : Async jsstring :=
  match text with
  | Some s => ret (trim s)
  | None => let* m := ask type_error_message in throw (Exn TypeError m)
  end.

Definition parse_json (text : jsstring) : Async JSON :=
  match JSON_parse text with
  | Some v => ret v
  | None =>
      let* m := ask (fun env => syntax_error_message env text) in
      throw (Exn SyntaxError m)
  end.

(** [fileToGenerativePart]: the promise settles on the first of
    [onerror] and [onloadend]; the data is [reader.result.split(',')[1]]. *)
Definition fileToGenerativePart (file : File) : Async Part :=
  let* outcome := read_file file in
  match outcome with
  | LoadEnd (Some result) =>
      ret (InlineDataPart (split (chr ",") result !! 1%nat) (file_type file))
  | LoadEnd None => throw (Exn Error (str "Failed to read file as data URL."))
  | ReadError => throw ProgressEvent
  end.

Definition textPart : Part :=
  TextPart (str "Analyze the provided image of a car. Even if only a part of the car is visible, identify its make, model, color, and estimated year of manufacture. If any information cannot be determined, state it as 'Unknown'. Provide the response in the specified JSON format.").

Definition responseSchema : Schema := {|
  schema_type := OBJECT;
  schema_properties :=
    [ (str "make", {| prop_type := STRING;
         prop_description := str "The make or brand of the car (e.g., Toyota, Ford)." |});
      (str "model", {| prop_type := STRING;
         prop_description := str "The specific model of the car (e.g., Camry, Mustang)." |});
      (str "color", {| prop_type := STRING;
         prop_description := str "The primary color of the car." |});
      (str "year", {| prop_type := STRING;
         prop_description := str "The estimated year of manufacture (e.g., 2021)." |}) ];
  schema_required := [str "make"; str "model"; str "color"; str "year"];
|}.

Definition request (imagePart : Part) : GenerateContentParameters := {|
  gen_model := str "gemini-2.5-flash";
  gen_parts := [textPart; imagePart];
  gen_responseMimeType := str "application/json";
  gen_responseSchema := responseSchema;
|}.

Definition not_configured : Thrown :=
  Exn Error (str "API_KEY is not configured.").

Definition analysis_failed : Thrown :=
  Exn Error (str "Failed to analyze image. The AI model could not process the request.").

(** [analyzeCarImage]: the value it resolves with is whatever
    [JSON.parse] returned, [as CarAnalysis] checks nothing at run time. *)
Definition analyzeCarImage (imageFile : File) : Async JSON :=
  let* key := ask API_KEY in
  if negb (truthy key) then throw not_configured
  else
    let* imagePart := fileToGenerativePart imageFile in
    try_catch
      (let* text := models_generateContent (request imagePart) in
       let* jsonText := text_trim text in
       let* result := parse_json jsonText in
       ret result)
      (fun error =>
         let* _ := console_error (str "Error analyzing car image with Gemini API:") error in
         throw analysis_failed).

End GeminiService.
Export GeminiService.

(** ** The interaction controller, [src/App.tsx] *)
Module App.

(** An object URL, as [URL.createObjectURL] returns it.  The browser
    makes up a new one at every call; they are numbered here. *)
Definition ObjectURL : Type := nat.

(** The five [useState] cells of [App]. *)
Record State : Type := {
  imageFile : option File;
  previewUrl : option ObjectURL;
  analysisResult : option CarAnalysis;
  isLoading : bool;
  error : option jsstring;
}.

Definition initialState : State := {|
  imageFile := None;
  previewUrl := None;
  analysisResult := None;
  isLoading := false;
  error := None;
|}.

Definition setImageFile (v : option File) (s : State) : State :=
  {| imageFile := v; previewUrl := previewUrl s;
     analysisResult := analysisResult s; isLoading := isLoading s;
     error := error s |}.

Definition setPreviewUrl (v : option ObjectURL) (s : State) : State :=
  {| imageFile := imageFile s; previewUrl := v;
     analysisResult := analysisResult s; isLoading := isLoading s;
     error := error s |}.

Definition setAnalysisResult (v : option CarAnalysis) (s : State) : State :=
  {| imageFile := imageFile s; previewUrl := previewUrl s;
     analysisResult := v; isLoading := isLoading s; error := error s |}.

Definition setIsLoading (v : bool) (s : State) : State :=
  {| imageFile := imageFile s; previewUrl := previewUrl s;
     analysisResult := analysisResult s; isLoading := v; error := error s |}.

Definition setError (v : option jsstring) (s : State) : State :=
  {| imageFile := imageFile s; previewUrl := previewUrl s;
     analysisResult := analysisResult s; isLoading := isLoading s;
     error := v |}.

(** The component in its surroundings: its state, the object URLs the
    browser holds allocated, the number of the next one, and the calls
    of [analyzeCarImage] that have not settled yet, each with the file
    it was given. *)
Record World : Type := {
  ui : State;
  objectURLs : gset ObjectURL;
  nextURL : ObjectURL;
  inflight : list File;
}.

Definition initialWorld : World := {|
  ui := initialState;
  objectURLs := ∅;
  nextURL := 0%nat;
  inflight := [];
|}.

Definition with_ui (f : State -> State) (w : World) : World :=
  {| ui := f (ui w); objectURLs := objectURLs w; nextURL := nextURL w;
     inflight := inflight w |}.

(** [URL.createObjectURL(file)] *)
Definition createObjectURL (file : File) (w : World) : ObjectURL * World :=
  (nextURL w,
   {| ui := ui w; objectURLs := {[nextURL w]} ∪ objectURLs w;
      nextURL := S (nextURL w); inflight := inflight w |}).

(** [URL.revokeObjectURL(url)] *)
Definition revokeObjectURL (url : ObjectURL) (w : World) : World :=
  {| ui := ui w; objectURLs := objectURLs w ∖ {[url]};
     nextURL := nextURL w; inflight := inflight w |}.

(** The call [analyzeCarImage(file)]: from here on it is in flight. *)
Definition call_analyzeCarImage (file : File) (w : World) : World :=
  {| ui := ui w; objectURLs := objectURLs w; nextURL := nextURL w;
     inflight := inflight w ++ [file] |}.

Definition handleFileSelect (file : File) (w : World) : World :=
  let w1 := with_ui (setImageFile (Some file)) w in
  let (url, w2) := createObjectURL file w1 in
  let w3 := with_ui (setPreviewUrl (Some url)) w2 in
  let w4 := with_ui (setAnalysisResult None) w3 in
  with_ui (setError None) w4.

(** [handleScan] up to its [await]. *)
Definition handleScan (w : World) : World :=
  match imageFile (ui w) with
  | None => w
  | Some file =>
      let w1 := with_ui (setIsLoading true) w in
      let w2 := with_ui (setError None) w1 in
      let w3 := with_ui (setAnalysisResult None) w2 in
      call_analyzeCarImage file w3
  end.

(** [err.message || 'An unknown error occurred.'] *)
Definition error_message (err : Thrown) : jsstring :=
  match err with
  | Exn _ message =>
      if truthy_string message then message
      else str "An unknown error occurred."
  | ProgressEvent => str "An unknown error occurred."
  end.

(** [handleScan] from its [await] on, once the call has settled: the
    rest of the [try], or the [catch], and then the [finally]. *)
Definition handleScan_resume (outcome : Completion CarAnalysis) (s : State) : State :=
  let s1 :=
    match outcome with
    | Normal result => setAnalysisResult (Some result) s
    | Abrupt err => setError (Some (error_message err)) s
    end in
  setIsLoading false s1.

Definition resetState (w : World) : World :=
  let w0 :=
    match previewUrl (ui w) with
    | Some url => revokeObjectURL url w
    | None => w
    end in
  let w1 := with_ui (setImageFile None) w0 in
  let w2 := with_ui (setPreviewUrl None) w1 in
  let w3 := with_ui (setAnalysisResult None) w2 in
  let w4 := with_ui (setError None) w3 in
  with_ui (setIsLoading false) w4.

(** *** What [App] renders *)

Inductive Button : Type :=
  | Hidden
  | Shown (disabled : bool).

Record View : Type := {
  fileUploader : bool;
  preview : option ObjectURL;
  removeImage : Button;
  scanImage : Button;
  errorAlert : option jsstring;
  resultCard : option CarAnalysis;
  scanAnother : Button;
}.

Definition render (s : State) : View :=
  match imageFile s with
  | None =>
      {| fileUploader := true; preview := None; removeImage := Hidden;
         scanImage := Hidden; errorAlert := None; resultCard := None;
         scanAnother := Hidden |}
  | Some _ =>
      {| fileUploader := false;
         preview := previewUrl s;
         removeImage := Shown false;
         scanImage :=
           match analysisResult s with
           | None => Shown (isLoading s)
           | Some _ => Hidden
           end;
         errorAlert := if truthy (error s) then error s else None;
         resultCard := analysisResult s;
         scanAnother :=
           match analysisResult s with
           | Some _ => Shown false
           | None => Hidden
           end |}
  end.

Definition clickable (b : Button) : bool :=
  match b with
  | Shown false => true
  | _ => false
  end.

(** *** Events *)

(** What can happen to the component: the [change] event of the file
    input with the files it holds, a click on one of the three buttons,
    and the settling of the [i]-th call in flight.  A call that resolves
    hands over a [CarAnalysis], as the type of [analyzeCarImage] has it;
    calls may settle in any order and with any outcome. *)
Inductive Event : Type :=
  | FileChange (files : list File)
  | ClickScan
  | ClickRemove
  | ClickScanAnother
  | Settle (i : nat) (outcome : Completion CarAnalysis).

(** [handleFileChange] of [FileUploader] *)
Definition handleFileChange (files : list File) (w : World) : World :=
  match files with
  | file :: _ => handleFileSelect file w
  | [] => w
  end.

(** The event handled in world [w]; [None] when the control is not there
    to be used, or no such call is in flight. *)
Definition dispatch (e : Event) (w : World) : option World :=
  let v := render (ui w) in
  match e with
  | FileChange files =>
      if fileUploader v then Some (handleFileChange files w) else None
  | ClickScan =>
      if clickable (scanImage v) then Some (handleScan w) else None
  | ClickRemove =>
      if clickable (removeImage v) then Some (resetState w) else None
  | ClickScanAnother =>
      if clickable (scanAnother v) then Some (resetState w) else None
  | Settle i outcome =>
      match inflight w !! i with
      | Some _ =>
          Some {| ui := handleScan_resume outcome (ui w);
                  objectURLs := objectURLs w; nextURL := nextURL w;
                  inflight := delete i (inflight w) |}
      | None => None
      end
  end.

Fixpoint run (es : list Event) (w : World) : option World :=
  match es with
  | [] => Some w
  | e :: es' =>
      match dispatch e w with
      | Some w' => run es' w'
      | None => None
      end
  end.

(** The worlds that come up when every event along the way is one that
    [allowed] admits. *)
Inductive reachable_by (allowed : Event -> World -> Prop) : World -> Prop :=
  | reach_init : reachable_by allowed initialWorld
  | reach_step w e w' :
      reachable_by allowed w -> allowed e w -> dispatch e w = Some w' ->
      reachable_by allowed w'.

Definition reachable : World -> Prop := reachable_by (fun _ _ => True).

Definition is_reset (e : Event) : bool :=
  match e with
  | ClickRemove | ClickScanAnother => true
  | _ => false
  end.

(** No reset while a call is in flight. *)
Definition waits_for_calls (e : Event) (w : World) : Prop :=
  is_reset e = true -> inflight w = [].

Definition reachable_waiting : World -> Prop := reachable_by waits_for_calls.

(** *** The spec's ScanState *)

Inductive ScanState : Type :=
  | Idle
  | Ready (asset : File)
  | Loading (asset : File)
  | Success (asset : File) (result : CarAnalysis)
  | Failed (asset : File) (message : jsstring).

(** The variant that the five cells stand for, when they stand for one. *)
Definition scanState (s : State) : option ScanState :=
  match imageFile s, previewUrl s, analysisResult s, error s, isLoading s with
  | None, None, None, None, false => Some Idle
  | Some f, Some _, None, None, false => Some (Ready f)
  | Some f, Some _, None, None, true => Some (Loading f)
  | Some f, Some _, Some r, None, false => Some (Success f r)
  | Some f, Some _, None, Some m, false => Some (Failed f m)
  | _, _, _, _, _ => None
  end.

End App.
Export App.

(** ** Notions the properties are stated with *)
Module Properties.

(** The image part that [fileToGenerativePart] makes of a file whose
    data URL is [result]. *)
Definition imagePart_of (file : File) (result : jsstring) : Part :=
  InlineDataPart (split (chr ",") result !! 1%nat) (file_type file).

(** The errors that [analyzeCarImage] lets out. *)
Definition read_failed : Thrown :=
  Exn Error (str "Failed to read file as data URL.").

(** The remote service keeps to the response schema: a body that parses
    is a record with the four string fields. *)
Definition honours_schema (env : Env) : Prop :=
  forall params text v,
    generateContent env params = Resolved (Some text) ->
    JSON_parse (trim text) = Some v ->
    is_Some (asCarAnalysis v).

(** The request is sent and the transport fails: the call is rejected. *)
Definition transport_failure (env : Env) (file : File) : Prop :=
  truthy (API_KEY env) = true /\
  exists result e,
    readAsDataURL env file = LoadEnd (Some result) /\
    generateContent env (request (imagePart_of file result)) = Rejected e.

(** The request is answered and the body cannot be parsed: there is no
    text, or [JSON.parse] throws on it. *)
Definition parse_failure (env : Env) (file : File) : Prop :=
  truthy (API_KEY env) = true /\
  exists result text,
    readAsDataURL env file = LoadEnd (Some result) /\
    generateContent env (request (imagePart_of file result)) = Resolved text /\
    (text ≫= (fun t => JSON_parse (trim t))) = None.

Definition is_network_call (eff : Effect) : bool :=
  match eff with EGenerateContent _ => true | _ => false end.

Definition is_encoding (eff : Effect) : bool :=
  match eff with EReadAsDataURL _ => true | _ => false end.

(** The object URLs that the state accounts for. *)
Definition held_urls (s : State) : gset ObjectURL :=
  match previewUrl s with
  | Some url => {[url]}
  | None => ∅
  end.

(** The calls in flight that a ScanState accounts for. *)
Definition calls_of (st : ScanState) : list File :=
  match st with
  | Loading asset => [asset]
  | _ => []
  end.

(** What holds of every world that comes up: while no image is held
    there is no preview and nothing is loading, and the object URLs that
    are allocated are the ones the state accounts for. *)
Definition consistent (w : World) : Prop :=
  (imageFile (ui w) = None ->
   previewUrl (ui w) = None /\ isLoading (ui w) = false) /\
  objectURLs w = held_urls (ui w).

(** What holds as long as no reset comes while a call is in flight: the
    cells stand for a ScanState, and the calls in flight are the ones it
    accounts for. *)
Definition in_step (w : World) : Prop :=
  exists st, scanState (ui w) = Some st /\ inflight w = calls_of st.

(** *** Sample data *)

Definition carA : File :=
  {| file_name := str "car.jpg"; file_type := str "image/jpeg";
     file_bytes := [255; 216; 255] |}.

Definition carB : File :=
  {| file_name := str "blurry.png"; file_type := str "image/png";
     file_bytes := [137; 80; 78; 71] |}.

Definition camry : CarAnalysis :=
  {| make := str "Toyota"; model := str "Camry"; color := str "Blue";
     year := str "2021" |}.

(** The body of scenario A. *)
Definition camry_body : jsstring :=
  str "{" ++ quoted "make" ++ str ":" ++ quoted "Toyota" ++ str ","
  ++ quoted "model" ++ str ":" ++ quoted "Camry" ++ str ","
  ++ quoted "color" ++ str ":" ++ quoted "Blue" ++ str ","
  ++ quoted "year" ++ str ":" ++ quoted "2021" ++ str "}".

(** A body that is JSON but lacks three of the four fields. *)
Definition make_only_body : jsstring :=
  str "{" ++ quoted "make" ++ str ":" ++ quoted "Toyota" ++ str "}".

(** Surroundings in which the file is read and the service answers
    every request as [answer] says. *)
Definition env_with (key : option jsstring) (answer : GenerateOutcome) : Env :=
  {| API_KEY := key;
     readAsDataURL := fun _ => LoadEnd (Some (str "data:image/jpeg;base64,/9j/"));
     generateContent := fun _ => answer;
     type_error_message := str "Cannot read properties of undefined (reading 'trim')";
     syntax_error_message := fun _ => str "Unexpected token" |}.

(** The worlds of scenario A: an image selected, then its scan started. *)
Definition world_ready : World := handleFileSelect carA initialWorld.

Definition world_loading : World := handleScan world_ready.

Definition network_down : Thrown := Exn ApiError (str "fetch failed").

(** Select, scan, remove the image while the call is in flight, select
    another image and scan it. *)
Definition two_scans : list Event :=
  [FileChange [carA]; ClickScan; ClickRemove; FileChange [carB]; ClickScan].

End Properties.
Export Properties.

(** ** Further notions, for the properties beyond the claims *)
Module Observations.

Definition is_console_error (eff : Effect) : bool :=
  match eff with EConsoleError _ _ => true | _ => false end.

(** The surroundings [env], with a remote service that settles every
    request as [answer] says. *)
Definition answering (env : Env) (answer : GenerateOutcome) : Env :=
  {| API_KEY := API_KEY env;
     readAsDataURL := readAsDataURL env;
     generateContent := fun _ => answer;
     type_error_message := type_error_message env;
     syntax_error_message := syntax_error_message env |}.

(** Nothing but code units that [trim] strips. *)
Definition all_trim_space (s : jsstring) : bool := forallb is_trim_space s.

(** The texts of the four messages that [App] can come to show. *)
Definition user_messages : list jsstring :=
  [ str "API_KEY is not configured.";
    str "Failed to read file as data URL.";
    str "An unknown error occurred.";
    str "Failed to analyze image. The AI model could not process the request." ].


(** Surroundings in which the file reader yields a text that has no
    comma. *)
Definition env_no_payload : Env :=
  {| API_KEY := Some (str "key");
     readAsDataURL := fun _ => LoadEnd (Some (str "data:"));
     generateContent := fun _ => Resolved (Some camry_body);
     type_error_message := str "Cannot read properties of undefined (reading 'trim')";
     syntax_error_message := fun _ => str "Unexpected token" |}.

(** A body that is JSON, with a number where the schema asks for the
    string [year]. *)
Definition year_number_body : jsstring :=
  str "{" ++ quoted "make" ++ str ":" ++ quoted "Toyota" ++ str ","
  ++ quoted "model" ++ str ":" ++ quoted "Camry" ++ str ","
  ++ quoted "color" ++ str ":" ++ quoted "Blue" ++ str ","
  ++ quoted "year" ++ str ":2021}".

(** Surroundings in which the file cannot be read. *)
Definition env_unreadable : Env :=
  {| API_KEY := Some (str "key");
     readAsDataURL := fun _ => ReadError;
     generateContent := fun _ => Resolved (Some camry_body);
     type_error_message := str "Cannot read properties of undefined (reading 'trim')";
     syntax_error_message := fun _ => str "Unexpected token" |}.


End Observations.
Export Observations.

(** * Properties *)

(** ** JSON.parse on sample texts *)

Example JSON_parse_camry :
  JSON_parse camry_body =
  Some (JObject [(str "make", JString (str "Toyota"));
                 (str "model", JString (str "Camry"));
                 (str "color", JString (str "Blue"));
                 (str "year", JString (str "2021"))]).
Proof. vm_compute. reflexivity. Qed.

Example asCarAnalysis_camry :
  JSON_parse camry_body ≫= asCarAnalysis = Some camry.
Proof. vm_compute. reflexivity. Qed.

Example JSON_parse_nested :
  JSON_parse (str " [1, -2.5e+3, true, null, {}, [[]]] ") =
  Some (JArray [JNumber (str "1"); JNumber (str "-2.5e+3"); JBool true;
                JNull; JObject []; JArray [JArray []]]).
Proof. vm_compute. reflexivity. Qed.

Example JSON_parse_escapes :
  JSON_parse (quoted "a\nA\/") = Some (JString [97; 10; 65; 47]).
Proof. vm_compute. reflexivity. Qed.

Example JSON_parse_unicode_escape :
  JSON_parse (quoted "\u00e9\u20AC") = Some (JString [233; 8364]).
Proof. vm_compute. reflexivity. Qed.

(** Scenario B: four fields that say Unknown are a record like any other. *)
Example asCarAnalysis_unknown :
  JSON_parse (str "{" ++ quoted "make" ++ str ":" ++ quoted "Unknown" ++ str ","
              ++ quoted "model" ++ str ":" ++ quoted "Unknown" ++ str ","
              ++ quoted "color" ++ str ":" ++ quoted "Unknown" ++ str ","
              ++ quoted "year" ++ str ":" ++ quoted "Unknown" ++ str "}")
    ≫= asCarAnalysis
  = Some {| make := str "Unknown"; model := str "Unknown";
            color := str "Unknown"; year := str "Unknown" |}.
Proof. vm_compute. reflexivity. Qed.

Example JSON_parse_repeated_key :
  JSON_parse (str "{" ++ quoted "a" ++ str ":1," ++ quoted "b" ++ str ":2,"
              ++ quoted "a" ++ str ":3}") =
  Some (JObject [(str "a", JNumber (str "3")); (str "b", JNumber (str "2"))]).
Proof. vm_compute. reflexivity. Qed.

Example JSON_parse_rejects :
  List.map JSON_parse
    [ []; str "01"; str "1 2"; str "[1,]"; str "[1 2]"; str "tru"; str "-";
      str "1.e3"; str "{,}"; str "{" ++ quoted "a" ++ str "}";
      str "Sorry, I cannot help."; dquote :: str "open" ] =
  List.map (fun _ => None) (seq 0 12).
Proof. vm_compute. reflexivity. Qed.

Example trim_sample : trim (9 :: 32 :: str "{} " ++ [10; 160]) = str "{}".
Proof. vm_compute. reflexivity. Qed.

Example split_data_url :
  split (chr ",") (str "data:image/png;base64,QUJD") !! 1%nat = Some (str "QUJD").
Proof. vm_compute. reflexivity. Qed.

(** ** The request adapter *)

(** The run of [analyzeCarImage], case by case. *)
Lemma analyzeCarImage_cases (file : File) (env : Env) :
  analyzeCarImage file env =
  if negb (truthy (API_KEY env)) then ([], Abrupt not_configured)
  else
    match readAsDataURL env file with
    | ReadError => ([EReadAsDataURL file], Abrupt ProgressEvent)
    | LoadEnd None => ([EReadAsDataURL file], Abrupt read_failed)
    | LoadEnd (Some result) =>
        let params := request (imagePart_of file result) in
        let log := EConsoleError (str "Error analyzing car image with Gemini API:") in
        match generateContent env params with
        | Rejected e =>
            ([EReadAsDataURL file; EGenerateContent params; log e],
             Abrupt analysis_failed)
        | Resolved None =>
            ([EReadAsDataURL file; EGenerateContent params;
              log (Exn TypeError (type_error_message env))],
             Abrupt analysis_failed)
        | Resolved (Some text) =>
            match JSON_parse (trim text) with
            | Some v =>
                ([EReadAsDataURL file; EGenerateContent params], Normal v)
            | None =>
                ([EReadAsDataURL file; EGenerateContent params;
                  log (Exn SyntaxError (syntax_error_message env (trim text)))],
                 Abrupt analysis_failed)
            end
        end
    end.
Proof.
  cbv beta zeta delta [analyzeCarImage bind ask try_catch fileToGenerativePart
    read_file models_generateContent perform imagePart_of text_trim
    parse_json console_error throw ret].
  cbn beta iota.
  destruct (negb (truthy (API_KEY env))); [reflexivity|].
  destruct (readAsDataURL env file) as [[result|]|]; try reflexivity.
  cbn beta iota.
  destruct (generateContent env _) as [[text|]|e]; try reflexivity.
  cbn beta iota.
  destruct (JSON_parse (trim text)); reflexivity.
Qed.

(** C1, as the code has it: the adapter validates nothing.  For every
    input [analyzeCarImage] either fails with one of its four errors or
    returns the value that the trimmed body of the response parses to;
    and every body that parses is returned as it is, whatever it holds.
    So the record returned has [make], [model], [color] and [year] as
    strings when the remote service keeps to the response schema, and
    only then. *)
Theorem analyzeCarImage_record_or_error (file : File) (env : Env) :
  match snd (analyzeCarImage file env) with
  | Normal v =>
      (exists result text,
         readAsDataURL env file = LoadEnd (Some result) /\
         generateContent env (request (imagePart_of file result))
           = Resolved (Some text) /\
         JSON_parse (trim text) = Some v) /\
      (honours_schema env -> is_Some (asCarAnalysis v))
  | Abrupt e =>
      e = not_configured \/ e = read_failed \/ e = ProgressEvent
      \/ e = analysis_failed
  end /\
  (forall result text v,
     truthy (API_KEY env) = true ->
     readAsDataURL env file = LoadEnd (Some result) ->
     generateContent env (request (imagePart_of file result))
       = Resolved (Some text) ->
     JSON_parse (trim text) = Some v ->
     snd (analyzeCarImage file env) = Normal v).
Proof.
  rewrite analyzeCarImage_cases. split.
  - destruct (negb (truthy (API_KEY env))); [cbn; auto|].
    destruct (readAsDataURL env file) as [[result|]|]; [|cbn; auto..].
    cbv zeta.
    destruct (generateContent env _) as [[text|]|e] eqn:Hgen; [|cbn; auto..].
    destruct (JSON_parse (trim text)) as [v|] eqn:Hparse; [|cbn; auto].
    cbn [snd]. split; [exists result, text; auto|].
    intros Hschema. eapply Hschema; eassumption.
  - intros result text v Hkey Hread Hgen Hparse.
    rewrite Hkey, Hread. cbn [negb]. cbv zeta. rewrite Hgen, Hparse.
    reflexivity.
Qed.

Lemma analyzeCarImage_record_or_error_witness :
  honours_schema (env_with (Some (str "key")) (Resolved (Some camry_body))) /\
  match snd (analyzeCarImage carA
               (env_with (Some (str "key")) (Resolved (Some camry_body)))) with
  | Normal v => is_Some (asCarAnalysis v)
  | Abrupt _ => False
  end /\
  JSON_parse (trim make_only_body)
    = Some (JObject [(str "make", JString (str "Toyota"))]) /\
  snd (analyzeCarImage carB
         (env_with (Some (str "key")) (Resolved (Some make_only_body))))
    = Normal (JObject [(str "make", JString (str "Toyota"))]).
Proof.
  assert (Hschema :
    honours_schema (env_with (Some (str "key")) (Resolved (Some camry_body)))).
  { intros params text v Hgen Hparse. cbn in Hgen.
    injection Hgen as <-. vm_compute in Hparse. injection Hparse as <-.
    vm_compute. eauto. }
  assert (Hparse : JSON_parse (trim make_only_body)
            = Some (JObject [(str "make", JString (str "Toyota"))]))
    by (vm_compute; reflexivity).
  split; [exact Hschema|]. split; [|split; [exact Hparse|]].
  - pose proof (proj1 (analyzeCarImage_record_or_error carA
        (env_with (Some (str "key")) (Resolved (Some camry_body))))) as H.
    exact (proj2 H Hschema).
  - exact (proj2 (analyzeCarImage_record_or_error carB
        (env_with (Some (str "key")) (Resolved (Some make_only_body))))
        (str "data:image/jpeg;base64,/9j/") make_only_body _
        eq_refl eq_refl eq_refl Hparse).
Defined.

(** Scenario A: the body with the four fields comes back as the record. *)
Example analyzeCarImage_camry :
  match snd (analyzeCarImage carA
               (env_with (Some (str "key")) (Resolved (Some camry_body)))) with
  | Normal v => asCarAnalysis v
  | Abrupt _ => None
  end = Some camry.
Proof. vm_compute. reflexivity. Qed.

(** C1 as it is worded fails: a body that is JSON but lacks fields is
    returned as it is, a record with [make] alone. *)
Lemma analyzeCarImage_partial_record :
  snd (analyzeCarImage carA
         (env_with (Some (str "key")) (Resolved (Some make_only_body))))
    = Normal (JObject [(str "make", JString (str "Toyota"))])
  /\ asCarAnalysis (JObject [(str "make", JString (str "Toyota"))]) = None.
Proof. split; vm_compute; reflexivity. Qed.

(** C4: with no API key in the process configuration (none, or an empty
    one) [analyzeCarImage] fails with the configuration error and has
    done nothing before: no file was read for encoding, no request was
    sent. *)
Theorem analyzeCarImage_without_key (file : File) (env : Env) :
  API_KEY env = None \/ API_KEY env = Some [] ->
  analyzeCarImage file env = ([], Abrupt not_configured) /\
  error_message not_configured = str "API_KEY is not configured." /\
  forall eff, eff ∈ fst (analyzeCarImage file env) ->
    is_encoding eff = false /\ is_network_call eff = false.
Proof.
  intros Hkey. rewrite analyzeCarImage_cases.
  assert (truthy (API_KEY env) = false) as -> by (destruct Hkey as [-> | ->]; reflexivity).
  cbn [negb fst]. split; [reflexivity|]. split; [reflexivity|].
  intros eff Hin. apply elem_of_nil in Hin. destruct Hin.
Qed.

Lemma analyzeCarImage_without_key_witness :
  (API_KEY (env_with None (Resolved (Some camry_body))) = None \/
   API_KEY (env_with None (Resolved (Some camry_body))) = Some []) /\
  analyzeCarImage carA (env_with None (Resolved (Some camry_body)))
    = ([], Abrupt not_configured).
Proof.
  split; [left; reflexivity|].
  apply (analyzeCarImage_without_key carA
           (env_with None (Resolved (Some camry_body)))).
  left; reflexivity.
Defined.

(** C8, as the code has it: a transport failure and a failure to parse
    the body of the response (no text, or [JSON.parse] throws) both come
    out of [analyzeCarImage] as one and the same error, with the same
    readable message, so the error value does not tell which of the two
    happened; and that error comes of nothing else.  A body that parses
    is no failure to the adapter, whatever it holds: it is returned, also
    when it is not what the schema asks for. *)
Theorem analyzeCarImage_failures_normalized
    (env1 env2 : Env) (file1 file2 : File) :
  (transport_failure env1 file1 ->
   parse_failure env2 file2 ->
   snd (analyzeCarImage file1 env1) = Abrupt analysis_failed /\
   snd (analyzeCarImage file2 env2) = Abrupt analysis_failed) /\
  (snd (analyzeCarImage file1 env1) = Abrupt analysis_failed <->
   transport_failure env1 file1 \/ parse_failure env1 file1) /\
  error_message analysis_failed =
    str "Failed to analyze image. The AI model could not process the request." /\
  (forall result text v,
     truthy (API_KEY env1) = true ->
     readAsDataURL env1 file1 = LoadEnd (Some result) ->
     generateContent env1 (request (imagePart_of file1 result))
       = Resolved (Some text) ->
     JSON_parse (trim text) = Some v ->
     analyzeCarImage file1 env1 =
       ([EReadAsDataURL file1;
         EGenerateContent (request (imagePart_of file1 result))],
        Normal v)).
Proof.
  assert (Hfail : forall env file,
            transport_failure env file \/ parse_failure env file ->
            snd (analyzeCarImage file env) = Abrupt analysis_failed).
  { intros env file [[Hk (r & e & Hr & Hg)] | [Hk (r & text & Hr & Hg & Hp)]];
      rewrite analyzeCarImage_cases, Hk, Hr; cbv zeta; rewrite Hg;
      [reflexivity|].
    destruct text as [t|]; [|reflexivity].
    cbn in Hp. rewrite Hp. reflexivity. }
  split; [|split; [split; [|apply Hfail]|split; [reflexivity|]]].
  - intros H1 H2. split; apply Hfail; auto.
  - rewrite analyzeCarImage_cases. unfold transport_failure, parse_failure.
    destruct (truthy (API_KEY env1)); cbn [negb snd];
      [|intros H; vm_compute in H; discriminate H].
    destruct (readAsDataURL env1 file1) as [[result|]|]; cbn [snd];
      try (intros H; vm_compute in H; discriminate H).
    cbv zeta.
    destruct (generateContent env1 _) as [[text|]|e] eqn:Hgen; cbn [snd].
    + destruct (JSON_parse (trim text)) eqn:Hparse; cbn [snd];
        [discriminate|].
      intros _. right. split; [reflexivity|].
      exists result, (Some text). auto.
    + intros _. right. split; [reflexivity|].
      exists result, None. auto.
    + intros _. left. split; [reflexivity|]. eauto.
  - intros result text v Hkey Hread Hgen Hparse.
    rewrite analyzeCarImage_cases, Hkey, Hread. cbn [negb]. cbv zeta.
    rewrite Hgen, Hparse. reflexivity.
Qed.

Lemma analyzeCarImage_failures_normalized_witness :
  transport_failure (env_with (Some (str "key")) (Rejected network_down)) carA /\
  parse_failure
    (env_with (Some (str "key")) (Resolved (Some (str "Sorry, I cannot help."))))
    carB /\
  snd (analyzeCarImage carA (env_with (Some (str "key")) (Rejected network_down)))
    = snd (analyzeCarImage carB
             (env_with (Some (str "key"))
                (Resolved (Some (str "Sorry, I cannot help."))))).
Proof.
  assert (H1 : transport_failure
                 (env_with (Some (str "key")) (Rejected network_down)) carA).
  { split; [reflexivity|]. eexists _, _. split; reflexivity. }
  assert (H2 : parse_failure
                 (env_with (Some (str "key"))
                    (Resolved (Some (str "Sorry, I cannot help.")))) carB).
  { split; [reflexivity|]. eexists _, _.
    split; [reflexivity|]. split; [reflexivity|]. vm_compute. reflexivity. }
  split; [exact H1|]. split; [exact H2|].
  destruct (proj1 (analyzeCarImage_failures_normalized _ _ _ _) H1 H2)
    as [-> ->].
  reflexivity.
Defined.

(** C8 as it is worded fails: a body that is JSON and is not what the
    schema asks for, with a number for [year], is no failure at all; it
    is returned as the result. *)
Lemma analyzeCarImage_returns_schema_violation :
  snd (analyzeCarImage carA
         (env_with (Some (str "key")) (Resolved (Some year_number_body))))
    = Normal (JObject [(str "make", JString (str "Toyota"));
                       (str "model", JString (str "Camry"));
                       (str "color", JString (str "Blue"));
                       (str "year", JNumber (str "2021"))])
  /\ asCarAnalysis (JObject [(str "make", JString (str "Toyota"));
                            (str "model", JString (str "Camry"));
                            (str "color", JString (str "Blue"));
                            (str "year", JNumber (str "2021"))]) = None.
Proof. split; vm_compute; reflexivity. Qed.

(** ** The interaction controller *)

(** The event went through: what was rendered, and what came of it. *)
Lemma dispatch_Some (e : Event) (w w' : World) :
  dispatch e w = Some w' ->
  match e with
  | FileChange files =>
      imageFile (ui w) = None /\ w' = handleFileChange files w
  | ClickScan =>
      is_Some (imageFile (ui w)) /\ analysisResult (ui w) = None /\
      isLoading (ui w) = false /\ w' = handleScan w
  | ClickRemove => is_Some (imageFile (ui w)) /\ w' = resetState w
  | ClickScanAnother =>
      is_Some (imageFile (ui w)) /\ is_Some (analysisResult (ui w)) /\
      w' = resetState w
  | Settle i outcome =>
      is_Some (inflight w !! i) /\
      ui w' = handleScan_resume outcome (ui w) /\
      objectURLs w' = objectURLs w /\ nextURL w' = nextURL w /\
      inflight w' = delete i (inflight w)
  end.
Proof.
  unfold dispatch, render. intros H.
  destruct e as [files| | | |i outcome].
  - destruct (imageFile (ui w)); cbn in H; [discriminate|].
    injection H as <-. auto.
  - destruct (imageFile (ui w)); cbn in H; [|discriminate].
    destruct (analysisResult (ui w)); cbn in H; [discriminate|].
    destruct (isLoading (ui w)); cbn in H; [discriminate|].
    injection H as <-. eauto.
  - destruct (imageFile (ui w)); cbn in H; [|discriminate].
    injection H as <-. eauto.
  - destruct (imageFile (ui w)); cbn in H; [|discriminate].
    destruct (analysisResult (ui w)); cbn in H; [|discriminate].
    injection H as <-. eauto.
  - destruct (inflight w !! i); [|discriminate].
    injection H as <-. cbn. eauto.
Qed.

(** What [run] reaches is reachable. *)
Lemma run_reachable (es : list Event) (w w' : World) :
  reachable w -> run es w = Some w' -> reachable w'.
Proof.
  revert w. induction es as [|e es IH]; intros w Hw Hrun; cbn in Hrun.
  - injection Hrun as <-. exact Hw.
  - destruct (dispatch e w) as [w1|] eqn:He; [|discriminate].
    apply (IH w1); [|exact Hrun].
    eapply reach_step; [exact Hw|exact I|exact He].
Qed.

Lemma consistent_init : consistent initialWorld.
Proof. split; [intros _; split; reflexivity|reflexivity]. Qed.

Lemma consistent_step (e : Event) (w w' : World) :
  consistent w -> dispatch e w = Some w' -> consistent w'.
Proof.
  intros [Hnone Hurls] H. apply dispatch_Some in H.
  unfold consistent, held_urls in *.
  destruct e as [[|file files]| | | |i outcome].
  - destruct H as [_ ->]. split; assumption.
  - destruct H as [Himg ->]. destruct (Hnone Himg) as [Hprev _].
    destruct w as [[f p r l m] urls next calls]. cbn in *. subst.
    split; [discriminate|]. apply union_empty_r_L.
  - destruct H as (Himg & _ & _ & ->). unfold handleScan.
    destruct w as [[[f|] p r l m] urls next calls]; cbn in *;
      [|destruct Himg; discriminate].
    split; [discriminate|assumption].
  - destruct H as [_ ->].
    destruct w as [[f [p|] r l m] urls next calls]; cbn in *; subst;
      (split; [auto|]); [apply difference_diag_L|reflexivity].
  - destruct H as (_ & _ & ->).
    destruct w as [[f [p|] r l m] urls next calls]; cbn in *; subst;
      (split; [auto|]); [apply difference_diag_L|reflexivity].
  - destruct H as (_ & Hui & Hu & _ & _). rewrite Hui, Hu.
    destruct outcome; cbn; (split; [|assumption]);
      intros Himg; destruct (Hnone Himg); auto.
Qed.

Lemma reachable_consistent (w : World) : reachable w -> consistent w.
Proof.
  induction 1 as [|w e w' _ IH _ Hstep].
  - apply consistent_init.
  - eapply consistent_step; eassumption.
Qed.

Lemma in_step_init : in_step initialWorld.
Proof. exists Idle. split; reflexivity. Qed.

Ltac absurd_hyp :=
  match goal with
  | H : is_Some None |- _ => destruct H; discriminate
  | H : Some _ = None |- _ => discriminate H
  | H : None = Some _ |- _ => discriminate H
  | H : true = false |- _ => discriminate H
  | H : false = true -> _ = [] |- _ => fail 1
  | H : true = true -> _ :: _ = [] |- _ => specialize (H eq_refl); discriminate H
  end.

Lemma in_step_step (e : Event) (w w' : World) :
  in_step w -> waits_for_calls e w -> dispatch e w = Some w' -> in_step w'.
Proof.
  intros (st & Hst & Hcalls) Hwait H. apply dispatch_Some in H.
  unfold in_step, waits_for_calls in *.
  destruct e as [[|file files]| | | |i outcome].
  - destruct H as [_ ->]. eauto.
  - destruct H as [Himg ->].
    destruct w as [[[f|] [p|] [r|] [|] [m|]] urls next calls];
      cbn in Hst, Himg; try absurd_hyp.
    injection Hst as <-. exists (Ready file). split; [reflexivity|exact Hcalls].
  - destruct H as (Himg & Hres & Hload & ->).
    destruct w as [[[f|] [p|] [r|] [|] [m|]] urls next calls];
      cbn in Hst, Himg, Hres, Hload; try absurd_hyp;
      injection Hst as <-; cbn in Hcalls; subst calls;
      exists (Loading f); split; reflexivity.
  - destruct H as (Himg & ->).
    destruct w as [[[f|] [p|] [r|] [|] [m|]] urls next calls];
      cbn in Hst, Himg, Hwait; try absurd_hyp;
      injection Hst as <-; cbn in Hcalls; subst calls; try absurd_hyp;
      exists Idle; split; reflexivity.
  - destruct H as (Himg & Hres & ->).
    destruct w as [[[f|] [p|] [r|] [|] [m|]] urls next calls];
      cbn in Hst, Himg, Hres; try absurd_hyp;
      injection Hst as <-; cbn in Hcalls; subst calls;
      exists Idle; split; reflexivity.
  - destruct H as ([f Hi] & Hui & _ & _ & Hfl). rewrite Hui, Hfl.
    destruct w as [[[f0|] [p|] [r|] [|] [m|]] urls next calls];
      cbn in Hst; try absurd_hyp;
      injection Hst as <-; cbn in Hcalls; subst calls; cbn in Hi;
      try (rewrite lookup_nil in Hi; discriminate Hi).
    destruct i as [|i]; [|destruct i; discriminate Hi].
    destruct outcome; eexists; split; reflexivity.
Qed.

Lemma reachable_waiting_in_step (w : World) : reachable_waiting w -> in_step w.
Proof.
  induction 1 as [|w e w' _ IH Hwait Hstep].
  - apply in_step_init.
  - eapply in_step_step; eassumption.
Qed.

(** While no image is held, and so while the file picker is what is
    rendered, nothing is loading. *)
Lemma fileUploader_not_loading (w : World) :
  reachable w -> fileUploader (render (ui w)) = true ->
  imageFile (ui w) = None /\ isLoading (ui w) = false.
Proof.
  intros Hw Hshown. apply reachable_consistent in Hw as [Hnone _].
  unfold render in Hshown.
  destruct (imageFile (ui w)); [discriminate Hshown|].
  split; [reflexivity|]. apply Hnone. reflexivity.
Qed.

(** Scenario A, through the controller. *)
Example scenario_A :
  (ui <$> run [FileChange [carA]; ClickScan; Settle 0 (Normal camry)]
            initialWorld) ≫= scanState
  = Some (Success carA camry).
Proof. vm_compute. reflexivity. Qed.

(** Scenario D: a rejected scan, then a reset and another file. *)
Example scenario_D :
  (ui <$> run [FileChange [carA]; ClickScan; Settle 0 (Abrupt network_down)]
            initialWorld) ≫= scanState
  = Some (Failed carA (str "fetch failed")) /\
  (ui <$> run [FileChange [carA]; ClickScan; Settle 0 (Abrupt network_down);
               ClickRemove; FileChange [carB]] initialWorld) ≫= scanState
  = Some (Ready carB).
Proof. split; vm_compute; reflexivity. Qed.

(** In Failed the file picker is not there, the scan button is. *)
Example failed_controls :
  (fun w => (fileUploader (render (ui w)), scanImage (render (ui w)))) <$>
    run [FileChange [carA]; ClickScan; Settle 0 (Abrupt network_down)]
      initialWorld
  = Some (false, Shown false).
Proof. vm_compute. reflexivity. Qed.

Lemma world_ready_waiting : reachable_waiting world_ready.
Proof.
  apply (reach_step _ initialWorld (FileChange [carA])).
  - apply reach_init.
  - intros Hreset. discriminate Hreset.
  - reflexivity.
Qed.

Lemma world_loading_waiting : reachable_waiting world_loading.
Proof.
  apply (reach_step _ world_ready ClickScan).
  - apply world_ready_waiting.
  - intros Hreset. discriminate Hreset.
  - reflexivity.
Qed.

Lemma reachable_waiting_reachable (w : World) :
  reachable_waiting w -> reachable w.
Proof.
  induction 1 as [|w e w' _ IH _ Hstep].
  - apply reach_init.
  - eapply reach_step; [exact IH|exact I|exact Hstep].
Qed.

(** C2, as the code has it: the completion of [handleScan] checks
    nothing.  Whenever a call settles it writes its result, or the
    message of its error, and clears the loading flag, in whatever state
    is current; the image file, the preview and the allocated object URLs
    it leaves alone.  Only when no reset comes while a call is in flight
    is the call that settles the one of the image currently held. *)
Theorem settle_writes_current_state
    (w w' : World) (i : nat) (outcome : Completion CarAnalysis) :
  dispatch (Settle i outcome) w = Some w' ->
  imageFile (ui w') = imageFile (ui w) /\
  previewUrl (ui w') = previewUrl (ui w) /\
  objectURLs w' = objectURLs w /\
  isLoading (ui w') = false /\
  match outcome with
  | Normal result =>
      analysisResult (ui w') = Some result /\ error (ui w') = error (ui w)
  | Abrupt err =>
      error (ui w') = Some (error_message err) /\
      analysisResult (ui w') = analysisResult (ui w)
  end /\
  (reachable_waiting w -> inflight w !! i = imageFile (ui w)).
Proof.
  intros H. apply dispatch_Some in H as ([f Hi] & Hui & Hurls & _ & _).
  rewrite Hui, Hurls.
  repeat split; try (destruct outcome; reflexivity).
  - destruct outcome; split; reflexivity.
  - intros Hw. apply reachable_waiting_in_step in Hw as (st & Hst & Hcalls).
    rewrite Hcalls in Hi |- *.
    destruct st; cbn in Hi; try (rewrite lookup_nil in Hi; discriminate Hi).
    destruct i as [|i]; [|destruct i; discriminate Hi].
    unfold scanState in Hst.
    destruct (imageFile (ui w)), (previewUrl (ui w)), (analysisResult (ui w)),
      (error (ui w)), (isLoading (ui w)); try discriminate Hst.
    injection Hst as <-. reflexivity.
Qed.

Lemma settle_writes_current_state_witness :
  dispatch (Settle 0 (Normal camry)) world_loading
  = Some {| ui := handleScan_resume (Normal camry) (ui world_loading);
            objectURLs := objectURLs world_loading;
            nextURL := nextURL world_loading; inflight := [] |} /\
  reachable_waiting world_loading /\
  analysisResult (handleScan_resume (Normal camry) (ui world_loading))
    = Some camry /\
  inflight world_loading !! 0%nat = imageFile (ui world_loading).
Proof.
  assert (H : dispatch (Settle 0 (Normal camry)) world_loading
              = Some {| ui := handleScan_resume (Normal camry) (ui world_loading);
                        objectURLs := objectURLs world_loading;
                        nextURL := nextURL world_loading; inflight := [] |})
    by reflexivity.
  split; [exact H|]. split; [exact world_loading_waiting|].
  destruct (settle_writes_current_state _ _ _ _ H)
    as (_ & _ & _ & _ & [Hres _] & Hid).
  split; [exact Hres|exact (Hid world_loading_waiting)].
Defined.

(** C2 as it is worded fails: a call that settles after the image was
    removed writes its result into the state of the reset, and one that
    settles after another image was selected gives that image a result
    it was never scanned for. *)
Lemma stale_result_written :
  ui <$> run [FileChange [carA]; ClickScan; ClickRemove] initialWorld
    = Some initialState /\
  ui <$> run [FileChange [carA]; ClickScan; ClickRemove;
              Settle 0 (Normal camry)] initialWorld
    = Some (setAnalysisResult (Some camry) initialState) /\
  ui <$> run [FileChange [carA]; ClickScan; ClickRemove; FileChange [carB];
              Settle 0 (Normal camry)] initialWorld
    = Some {| imageFile := Some carB; previewUrl := Some 1%nat;
              analysisResult := Some camry; isLoading := false;
              error := None |}.
Proof. repeat split; vm_compute; reflexivity. Qed.

(** C3: in any world the application can be in, after a reset and
    after the selection of a file the only object URL still allocated is
    the preview of the image now held, if one is held; the preview of
    the image held before, which was allocated, is not any more.  It is
    the reset that releases it: the file picker is there only while no
    image is held, so a new image is selected after a reset. *)
Theorem preview_released (w w' : World) (e : Event) :
  reachable w ->
  is_reset e = true \/ (exists files, e = FileChange files) ->
  dispatch e w = Some w' ->
  objectURLs w' = held_urls (ui w') /\
  (forall url, previewUrl (ui w) = Some url ->
     is_reset e = true /\ url ∈ objectURLs w /\ url ∉ objectURLs w').
Proof.
  intros Hw He Hstep.
  assert (Hw' : consistent w').
  { eapply consistent_step; [apply reachable_consistent|]; eassumption. }
  destruct Hw' as [_ Hurls']. split; [exact Hurls'|].
  intros url Hurl. rewrite Hurls'.
  pose proof (reachable_consistent _ Hw) as [Hnone Hurls].
  apply dispatch_Some in Hstep.
  destruct He as [He | [files ->]].
  - assert (w' = resetState w) as ->
      by (destruct e; try discriminate He; intuition).
    split; [exact He|]. split.
    + rewrite Hurls. unfold held_urls. rewrite Hurl.
      apply elem_of_singleton. reflexivity.
    + unfold held_urls.
      destruct w as [[f [p|] r l m] urls next calls]; cbn;
        apply not_elem_of_empty.
  - destruct Hstep as [Himg _]. destruct (Hnone Himg) as [Hprev _].
    rewrite Hprev in Hurl. discriminate Hurl.
Qed.

Lemma preview_released_witness :
  reachable world_ready /\
  is_reset ClickRemove = true /\
  dispatch ClickRemove world_ready = Some (resetState world_ready) /\
  previewUrl (ui world_ready) = Some 0%nat /\
  0%nat ∈ objectURLs world_ready /\
  0%nat ∉ objectURLs (resetState world_ready).
Proof.
  assert (Hw : reachable world_ready)
    by exact (reachable_waiting_reachable _ world_ready_waiting).
  assert (Hstep : dispatch ClickRemove world_ready
                  = Some (resetState world_ready))
    by reflexivity.
  split; [exact Hw|]. split; [reflexivity|]. split; [exact Hstep|].
  split; [reflexivity|].
  exact (proj2 (proj2 (preview_released _ _ ClickRemove Hw
                         (or_introl eq_refl) Hstep) 0%nat eq_refl)).
Defined.




(** C6: for every file the user selects, in every world the
    application can be in when the file picker is used, the state that
    results is Ready with that file, with no result and no error.
    Whatever the cells held before, [handleFileSelect] stores that file
    with a new preview and leaves neither a result nor an error, which is
    Ready whenever the loading flag was off, as it is in Idle, Ready,
    Success and Failed. *)
Theorem file_selection_ready (w : World) (file : File) (files : list File) :
  (forall w', reachable w -> dispatch (FileChange (file :: files)) w = Some w' ->
     scanState (ui w') = Some (Ready file)) /\
  (isLoading (ui w) = false ->
     scanState (ui (handleFileSelect file w)) = Some (Ready file)) /\
  (forall w', dispatch (FileChange (file :: files)) w = Some w' ->
     imageFile (ui w) = None /\ w' = handleFileSelect file w) /\
  isLoading (ui (handleFileSelect file w)) = isLoading (ui w) /\
  imageFile (ui (handleFileSelect file w)) = Some file /\
  previewUrl (ui (handleFileSelect file w)) = Some (nextURL w) /\
  analysisResult (ui (handleFileSelect file w)) = None /\
  error (ui (handleFileSelect file w)) = None.
Proof.
  assert (Hready : isLoading (ui w) = false ->
            scanState (ui (handleFileSelect file w)) = Some (Ready file)).
  { destruct w as [[f p r l m] urls next calls]. cbn. intros ->. reflexivity. }
  split; [|split; [exact Hready|split; [|repeat split]]].
  - intros w' Hw Hstep. apply dispatch_Some in Hstep as [Himg ->].
    apply Hready. apply fileUploader_not_loading; [exact Hw|].
    unfold render. rewrite Himg. reflexivity.
  - intros w' Hstep. apply dispatch_Some in Hstep. exact Hstep.
Qed.

Lemma file_selection_ready_witness :
  reachable initialWorld /\
  dispatch (FileChange [carA]) initialWorld = Some world_ready /\
  scanState (ui world_ready) = Some (Ready carA) /\
  isLoading (handleScan_resume (Normal camry) (ui world_loading)) = false /\
  scanState
    (ui (handleFileSelect carB
           (with_ui (handleScan_resume (Normal camry)) world_loading)))
  = Some (Ready carB).
Proof.
  split; [apply reach_init|]. split; [reflexivity|].
  split.
  - exact (proj1 (file_selection_ready initialWorld carA []) world_ready
             (reach_init _) eq_refl).
  - split; [reflexivity|].
    exact (proj1 (proj2 (file_selection_ready
             (with_ui (handleScan_resume (Normal camry)) world_loading)
             carB [])) eq_refl).
Defined.

(** C7: [resetState] leaves the initial state, from any state: no image
    file, no preview, no result, no error, not loading, which is Idle;
    and the preview that was held is revoked. *)
Theorem resetState_idle (w : World) :
  imageFile (ui (resetState w)) = None /\
  previewUrl (ui (resetState w)) = None /\
  analysisResult (ui (resetState w)) = None /\
  error (ui (resetState w)) = None /\
  isLoading (ui (resetState w)) = false /\
  ui (resetState w) = initialState /\
  scanState (ui (resetState w)) = Some Idle /\
  objectURLs (resetState w) = objectURLs w ∖ held_urls (ui w).
Proof.
  destruct w as [[f [p|] r l m] urls next calls]; repeat split.
  cbn. symmetry. apply difference_empty_L.
Qed.

(** C9: with no image file selected [handleScan] returns at once: the
    world is what it was, the state and the calls in flight included; and
    the scan button is not there to be clicked. *)
Theorem handleScan_without_image (w : World) :
  imageFile (ui w) = None ->
  handleScan w = w /\ dispatch ClickScan w = None.
Proof.
  intros Himg. unfold handleScan, dispatch, render. rewrite Himg.
  split; reflexivity.
Qed.

Lemma handleScan_without_image_witness :
  imageFile (ui initialWorld) = None /\
  handleScan initialWorld = initialWorld /\
  inflight (handleScan initialWorld) = [].
Proof.
  split; [reflexivity|].
  destruct (handleScan_without_image initialWorld eq_refl) as [Hsame _].
  split; [exact Hsame|]. rewrite Hsame. reflexivity.
Defined.

(** C10, as the code has it: as long as no reset comes while a call is in
    flight, the result and the error are never both set, and the five
    cells stand for one ScanState variant. *)
Theorem result_or_error_while_waiting (w : World) :
  reachable_waiting w ->
  ~ (is_Some (analysisResult (ui w)) /\ is_Some (error (ui w))) /\
  is_Some (scanState (ui w)).
Proof.
  intros Hw. apply reachable_waiting_in_step in Hw as (st & Hst & _).
  split; [|rewrite Hst; eauto].
  intros [[r Hr] [m Hm]]. unfold scanState in Hst. rewrite Hr, Hm in Hst.
  destruct (imageFile (ui w)), (previewUrl (ui w)); discriminate Hst.
Qed.

Lemma result_or_error_while_waiting_witness :
  reachable_waiting world_loading /\
  ~ (is_Some (analysisResult (ui world_loading)) /\
     is_Some (error (ui world_loading))) /\
  is_Some (scanState (ui world_loading)).
Proof.
  split; [exact world_loading_waiting|].
  exact (result_or_error_while_waiting _ world_loading_waiting).
Defined.

(** C10 as it is worded fails: with two calls in flight, the first one
    rejected and the second one resolved, the state holds an error and a
    result at once, and stands for no ScanState variant. *)
Lemma result_and_error_together :
  ui <$> run (two_scans ++ [Settle 0 (Abrupt network_down);
                            Settle 0 (Normal camry)]) initialWorld
    = Some {| imageFile := Some carB; previewUrl := Some 1%nat;
              analysisResult := Some camry; isLoading := false;
              error := Some (str "fetch failed") |} /\
  scanState {| imageFile := Some carB; previewUrl := Some 1%nat;
               analysisResult := Some camry; isLoading := false;
               error := Some (str "fetch failed") |} = None.
Proof. split; vm_compute; reflexivity. Qed.

(** * Further properties of the request adapter *)

(** ** [split] and the payload of a data URL *)

Lemma split_no_separator (sep : N) (s : jsstring) :
  sep ∉ s -> split sep s = [s].
Proof.
  induction s as [|c s IH]; intros Hs; cbn; [reflexivity|].
  apply not_elem_of_cons in Hs as [Hc Hs].
  destruct (N.eqb_spec c sep) as [->|_]; [contradiction|].
  rewrite (IH Hs). reflexivity.
Qed.

Lemma split_at_first_separator (sep : N) (a b : jsstring) :
  sep ∉ a -> split sep (a ++ sep :: b) = a :: split sep b.
Proof.
  induction a as [|c a IH]; intros Ha; cbn.
  - rewrite N.eqb_refl. reflexivity.
  - apply not_elem_of_cons in Ha as [Hc Ha].
    destruct (N.eqb_spec c sep) as [->|_]; [contradiction|].
    rewrite (IH Ha). reflexivity.
Qed.

(** The second piece of [s.split(',')] is what stands between the first
    comma and the next one, or the end. *)
Lemma split_second_piece (prefix payload rest : jsstring) :
  chr "," ∉ prefix -> chr "," ∉ payload ->
  rest = [] \/ (exists r, rest = chr "," :: r) ->
  split (chr ",") (prefix ++ chr "," :: payload ++ rest) !! 1%nat = Some payload.
Proof.
  intros Hprefix Hpayload Hrest.
  rewrite (split_at_first_separator _ _ _ Hprefix).
  destruct Hrest as [-> | [r ->]].
  - rewrite app_nil_r, (split_no_separator _ _ Hpayload). reflexivity.
  - rewrite (split_at_first_separator _ _ _ Hpayload). reflexivity.
Qed.

(** X1: [fileToGenerativePart] takes as data what the data URL of the
    file holds between its first comma and the next one or the end (the
    base64 payload of [data:<type>;base64,<payload>]), and tags it with
    the MIME type of the file; what follows a second comma is dropped. *)
Theorem fileToGenerativePart_payload
    (file : File) (env : Env) (prefix payload rest : jsstring) :
  chr "," ∉ prefix -> chr "," ∉ payload ->
  rest = [] \/ (exists r, rest = chr "," :: r) ->
  readAsDataURL env file = LoadEnd (Some (prefix ++ chr "," :: payload ++ rest)) ->
  fileToGenerativePart file env =
    ([EReadAsDataURL file],
     Normal (InlineDataPart (Some payload) (file_type file))).
Proof.
  intros Hprefix Hpayload Hrest Hread.
  cbv beta delta [fileToGenerativePart bind read_file perform ret].
  rewrite Hread. cbn beta iota.
  rewrite (split_second_piece _ _ _ Hprefix Hpayload Hrest). reflexivity.
Qed.

Lemma fileToGenerativePart_payload_witness :
  readAsDataURL (env_with None (Resolved None)) carA
    = LoadEnd (Some (str "data:image/jpeg;base64" ++ chr "," :: str "/9j/" ++ [])) /\
  fileToGenerativePart carA (env_with None (Resolved None)) =
    ([EReadAsDataURL carA],
     Normal (InlineDataPart (Some (str "/9j/")) (str "image/jpeg"))).
Proof.
  split; [reflexivity|].
  apply (fileToGenerativePart_payload carA (env_with None (Resolved None))
           (str "data:image/jpeg;base64") (str "/9j/") []).
  - vm_compute. intros H. repeat (apply elem_of_cons in H as [H|H]; [discriminate H|]).
    apply elem_of_nil in H. exact H.
  - vm_compute. intros H. repeat (apply elem_of_cons in H as [H|H]; [discriminate H|]).
    apply elem_of_nil in H. exact H.
  - left. reflexivity.
  - reflexivity.
Defined.

(** X2: a data URL without a comma gives an image part whose data is
    undefined, and [analyzeCarImage] sends the request all the same, with
    that part. *)
Theorem analyzeCarImage_sends_undefined_data
    (file : File) (env : Env) (result : jsstring) :
  truthy (API_KEY env) = true ->
  readAsDataURL env file = LoadEnd (Some result) ->
  chr "," ∉ result ->
  imagePart_of file result = InlineDataPart None (file_type file) /\
  fst (analyzeCarImage file env) !! 1%nat =
    Some (EGenerateContent (request (InlineDataPart None (file_type file)))).
Proof.
  intros Hkey Hread Hcomma.
  assert (Hpart : imagePart_of file result = InlineDataPart None (file_type file)).
  { unfold imagePart_of. rewrite (split_no_separator _ _ Hcomma). reflexivity. }
  split; [exact Hpart|].
  rewrite analyzeCarImage_cases, Hkey, Hread. cbv zeta. rewrite Hpart.
  cbn [negb].
  destruct (generateContent env _) as [[text|]|e]; try reflexivity.
  destruct (JSON_parse (trim text)); reflexivity.
Qed.

Lemma analyzeCarImage_sends_undefined_data_witness :
  truthy (API_KEY env_no_payload) = true /\
  readAsDataURL env_no_payload carA = LoadEnd (Some (str "data:")) /\
  fst (analyzeCarImage carA env_no_payload) !! 1%nat =
    Some (EGenerateContent (request (InlineDataPart None (str "image/jpeg")))).
Proof.
  split; [reflexivity|]. split; [reflexivity|].
  refine (proj2 (analyzeCarImage_sends_undefined_data carA env_no_payload
                   (str "data:") eq_refl eq_refl _)).
  vm_compute. intros H.
  repeat (apply elem_of_cons in H as [H|H]; [discriminate H|]).
  apply elem_of_nil in H. exact H.
Defined.

(** ** [trim] and the body of the response *)

Lemma trim_start_space (pad s : jsstring) :
  all_trim_space pad = true -> trim_start (pad ++ s) = trim_start s.
Proof.
  induction pad as [|c pad IH]; intros Hpad; [reflexivity|].
  cbn in Hpad |- *. apply andb_prop in Hpad as [-> Hpad]. exact (IH Hpad).
Qed.

Lemma trim_start_app (s pad : jsstring) :
  all_trim_space pad = true ->
  trim_start (s ++ pad) =
  match trim_start s with
  | [] => []
  | c :: s' => (c :: s') ++ pad
  end.
Proof.
  intros Hpad. induction s as [|c s IH]; cbn.
  - rewrite <- (app_nil_r pad). rewrite (trim_start_space _ _ Hpad). reflexivity.
  - destruct (is_trim_space c); [exact IH|reflexivity].
Qed.

Lemma all_trim_space_rev (pad : jsstring) :
  all_trim_space pad = true -> all_trim_space (rev pad) = true.
Proof.
  unfold all_trim_space. rewrite !forallb_forall. intros H c Hc.
  apply H. apply in_rev. exact Hc.
Qed.

Lemma trim_padded (pad1 text pad2 : jsstring) :
  all_trim_space pad1 = true -> all_trim_space pad2 = true ->
  trim (pad1 ++ text ++ pad2) = trim text.
Proof.
  intros H1 H2. unfold trim.
  rewrite (trim_start_space _ _ H1), (trim_start_app _ _ H2).
  destruct (trim_start text) as [|c s]; [reflexivity|].
  rewrite rev_app_distr.
  rewrite (trim_start_space _ _ (all_trim_space_rev _ H2)). reflexivity.
Qed.

(** X3: white space and line breaks around the body of the response
    make no difference: the run of [analyzeCarImage], effects and
    outcome, is the one for the body without them. *)
Theorem analyzeCarImage_ignores_padding
    (file : File) (env : Env) (pad1 text pad2 : jsstring) :
  all_trim_space pad1 = true -> all_trim_space pad2 = true ->
  analyzeCarImage file (answering env (Resolved (Some (pad1 ++ text ++ pad2))))
  = analyzeCarImage file (answering env (Resolved (Some text))).
Proof.
  intros H1 H2. rewrite !analyzeCarImage_cases. cbn [answering API_KEY
    readAsDataURL generateContent syntax_error_message type_error_message].
  rewrite (trim_padded _ _ _ H1 H2). reflexivity.
Qed.

Lemma analyzeCarImage_ignores_padding_witness :
  all_trim_space [10; 32] = true /\ all_trim_space [32; 13; 10] = true /\
  snd (analyzeCarImage carA
         (answering (env_with (Some (str "key")) (Resolved None))
            (Resolved (Some ([10; 32] ++ camry_body ++ [32; 13; 10])))))
  = snd (analyzeCarImage carA
           (answering (env_with (Some (str "key")) (Resolved None))
              (Resolved (Some camry_body)))).
Proof.
  split; [reflexivity|]. split; [reflexivity|].
  rewrite (analyzeCarImage_ignores_padding carA
             (env_with (Some (str "key")) (Resolved None))
             [10; 32] camry_body [32; 13; 10] eq_refl eq_refl).
  reflexivity.
Defined.

(** ** The effects of one invocation *)

(** X4: one invocation of [analyzeCarImage] sends one request at most,
    and none before it has read the file; it writes to the console
    exactly when it fails with its normalized error, so never when it
    returns a result. *)
Theorem analyzeCarImage_effects (file : File) (env : Env) :
  (length (List.filter is_network_call (fst (analyzeCarImage file env))) <= 1)%nat /\
  (forall i params,
     fst (analyzeCarImage file env) !! i = Some (EGenerateContent params) ->
     i = 1%nat /\
     fst (analyzeCarImage file env) !! 0%nat = Some (EReadAsDataURL file)) /\
  (existsb is_console_error (fst (analyzeCarImage file env)) = true <->
   snd (analyzeCarImage file env) = Abrupt analysis_failed).
Proof.
  rewrite analyzeCarImage_cases.
  assert (Hshape : forall (tr : list Effect) (c : Completion JSON),
    (tr = [] /\ c = Abrupt not_configured) \/
    (tr = [EReadAsDataURL file] /\ (c = Abrupt ProgressEvent \/ c = Abrupt read_failed)) \/
    (exists p, tr = [EReadAsDataURL file; EGenerateContent p] /\ exists v, c = Normal v) \/
    (exists p l e, tr = [EReadAsDataURL file; EGenerateContent p; EConsoleError l e]
       /\ c = Abrupt analysis_failed) ->
    (length (List.filter is_network_call tr) <= 1)%nat /\
    (forall i params, tr !! i = Some (EGenerateContent params) ->
       i = 1%nat /\ tr !! 0%nat = Some (EReadAsDataURL file)) /\
    (existsb is_console_error tr = true <-> c = Abrupt analysis_failed)).
  { intros tr c [[-> ->] | [[-> Hc] | [(p & -> & v & ->) | (p & l & e & -> & ->)]]];
      (split; [cbn; lia|split]).
    - intros i params H. rewrite lookup_nil in H. discriminate H.
    - cbn. split; [discriminate|]. intros H. vm_compute in H. discriminate H.
    - intros [|[|i]] params H; discriminate H.
    - cbn. split; [discriminate|].
      destruct Hc as [-> | ->]; intros H; vm_compute in H; discriminate H.
    - intros [|[|[|i]]] params H; try discriminate H. auto.
    - cbn. split; discriminate.
    - intros [|[|[|[|i]]]] params H; try discriminate H. auto.
    - cbn. split; reflexivity. }
  destruct (negb (truthy (API_KEY env))); cbn [fst snd]; [apply Hshape; auto|].
  destruct (readAsDataURL env file) as [[result|]|]; cbn [fst snd];
    [|apply Hshape; auto..].
  cbv zeta.
  destruct (generateContent env _) as [[text|]|e]; cbn [fst snd];
    [|apply Hshape; right; right; right; eauto..].
  destruct (JSON_parse (trim text)); cbn [fst snd]; apply Hshape.
  - right; right; left; eauto.
  - right; right; right; eauto.
Qed.

(** X5: a file that cannot be read makes [analyzeCarImage] fail with the
    error of the reading itself, which is not the normalized one: the
    reading stands before the [try].  No request is sent and nothing is
    written to the console. *)
Theorem analyzeCarImage_read_failure (file : File) (env : Env) :
  truthy (API_KEY env) = true ->
  (forall result, readAsDataURL env file <> LoadEnd (Some result)) ->
  fst (analyzeCarImage file env) = [EReadAsDataURL file] /\
  snd (analyzeCarImage file env) <> Abrupt analysis_failed /\
  match readAsDataURL env file with
  | ReadError => snd (analyzeCarImage file env) = Abrupt ProgressEvent
  | LoadEnd _ => snd (analyzeCarImage file env) = Abrupt read_failed
  end.
Proof.
  intros Hkey Hread.
  rewrite analyzeCarImage_cases, Hkey. cbn [negb].
  destruct (readAsDataURL env file) as [[result|]|]; cbn [fst snd].
  - destruct (Hread result). reflexivity.
  - repeat split. intros H. vm_compute in H. discriminate H.
  - repeat split. intros H. vm_compute in H. discriminate H.
Qed.

Lemma analyzeCarImage_read_failure_witness :
  truthy (API_KEY env_unreadable) = true /\
  (forall result, readAsDataURL env_unreadable carA <> LoadEnd (Some result)) /\
  analyzeCarImage carA env_unreadable = ([EReadAsDataURL carA], Abrupt ProgressEvent).
Proof.
  assert (Hread : forall result,
            readAsDataURL env_unreadable carA <> LoadEnd (Some result))
    by (intros result H; discriminate H).
  split; [reflexivity|]. split; [exact Hread|].
  destruct (analyzeCarImage_read_failure carA env_unreadable eq_refl Hread)
    as (Htr & _ & Hout).
  cbn in Hout. apply injective_projections; [exact Htr|exact Hout].
Defined.

(** ** When the adapter succeeds, and what it says when it fails *)

(** X6: [analyzeCarImage] returns a value exactly when the API key is
    set, the file is read, the request is answered with a text, and the
    trimmed text is JSON; the value is what the text parses to. *)
Theorem analyzeCarImage_succeeds_iff (file : File) (env : Env) (v : JSON) :
  snd (analyzeCarImage file env) = Normal v <->
  truthy (API_KEY env) = true /\
  exists result text,
    readAsDataURL env file = LoadEnd (Some result) /\
    generateContent env (request (imagePart_of file result))
      = Resolved (Some text) /\
    JSON_parse (trim text) = Some v.
Proof.
  rewrite analyzeCarImage_cases. split.
  - destruct (truthy (API_KEY env)); cbn [negb snd]; [|discriminate].
    destruct (readAsDataURL env file) as [[result|]|]; cbn [snd];
      try discriminate.
    cbv zeta.
    destruct (generateContent env _) as [[text|]|e] eqn:Hgen; cbn [snd];
      try discriminate.
    destruct (JSON_parse (trim text)) as [v'|] eqn:Hparse; cbn [snd];
      [|discriminate].
    intros H. injection H as <-. eauto 6.
  - intros (-> & result & text & -> & Hgen & Hparse).
    cbn [negb]. cbv zeta. rewrite Hgen, Hparse. reflexivity.
Qed.

(** X7: [analyzeCarImage] fails with its normalized error exactly when
    the request went out and was rejected, or was answered with a body
    that cannot be parsed. *)
Theorem analyzeCarImage_normalized_iff (file : File) (env : Env) :
  snd (analyzeCarImage file env) = Abrupt analysis_failed <->
  transport_failure env file \/ parse_failure env file.
Proof.
  split.
  - rewrite analyzeCarImage_cases. unfold transport_failure, parse_failure.
    destruct (truthy (API_KEY env)); cbn [negb snd];
      [|intros H; vm_compute in H; discriminate H].
    destruct (readAsDataURL env file) as [[result|]|]; cbn [snd];
      try (intros H; vm_compute in H; discriminate H).
    cbv zeta.
    destruct (generateContent env _) as [[text|]|e] eqn:Hgen; cbn [snd].
    + destruct (JSON_parse (trim text)) eqn:Hparse; cbn [snd];
        [discriminate|].
      intros _. right. split; [reflexivity|].
      exists result, (Some text). auto.
    + intros _. right. split; [reflexivity|].
      exists result, None. auto.
    + intros _. left. split; [reflexivity|]. eauto.
  - intros [Ht | Hp].
    + destruct Ht as [Hk (result & e & Hr & Hg)].
      rewrite analyzeCarImage_cases, Hk, Hr. cbv zeta. rewrite Hg. reflexivity.
    + destruct Hp as [Hk (result & text & Hr & Hg & Hparse)].
      rewrite analyzeCarImage_cases, Hk, Hr. cbv zeta. rewrite Hg.
      destruct text as [t|]; [|reflexivity].
      cbn in Hparse. rewrite Hparse. reflexivity.
Qed.

Lemma failure_message_fixed (file : File) (env : Env) (e : Thrown) :
  snd (analyzeCarImage file env) = Abrupt e ->
  error_message e ∈ user_messages.
Proof.
  rewrite analyzeCarImage_cases. unfold user_messages.
  destruct (negb (truthy (API_KEY env))); cbn [snd].
  { intros H. injection H as <-. apply list_elem_of_here. }
  assert (Hfail : forall c : Completion JSON,
            c = Abrupt analysis_failed -> c = Abrupt e ->
            error_message e ∈
              [ str "API_KEY is not configured.";
                str "Failed to read file as data URL.";
                str "An unknown error occurred.";
                str "Failed to analyze image. The AI model could not process the request." ]).
  { intros c -> H. injection H as <-.
    do 3 apply list_elem_of_further. apply list_elem_of_here. }
  destruct (readAsDataURL env file) as [[result|]|]; cbn [snd].
  - cbv zeta. destruct (generateContent env _) as [[text|]|e'];
      [destruct (JSON_parse (trim text)); [discriminate|]|..];
      apply Hfail; reflexivity.
  - intros H. injection H as <-.
    apply list_elem_of_further, list_elem_of_here.
  - intros H. injection H as <-.
    do 2 apply list_elem_of_further. apply list_elem_of_here.
Qed.

(** X8: whatever makes [analyzeCarImage] fail, the message that
    [handleScan] stores for it is one of four fixed texts; what the
    remote service or the engine said of the failure goes to the console
    and not into the state. *)
Theorem analyzeCarImage_user_messages (file : File) (env : Env) (e : Thrown) :
  snd (analyzeCarImage file env) = Abrupt e ->
  error_message e ∈ user_messages.
Proof.
  exact (failure_message_fixed file env e).
Qed.

Lemma analyzeCarImage_user_messages_witness :
  snd (analyzeCarImage carA (env_with (Some (str "key")) (Rejected network_down)))
    = Abrupt analysis_failed /\
  error_message analysis_failed ∈ user_messages /\
  error_message network_down ∉ user_messages.
Proof.
  assert (H : snd (analyzeCarImage carA
                     (env_with (Some (str "key")) (Rejected network_down)))
              = Abrupt analysis_failed) by reflexivity.
  split; [exact H|]. split.
  - exact (analyzeCarImage_user_messages carA _ analysis_failed H).
  - vm_compute. intros Hin.
    repeat (apply elem_of_cons in Hin as [Hin|Hin]; [discriminate Hin|]).
    apply elem_of_nil in Hin. exact Hin.
Defined.

(** * Further properties of the interaction controller *)

(** X9: the message that [handleScan] stores for a failure is never
    empty: it is the message of the error when that is not empty, and the
    fallback text otherwise (an error without message text, or a thrown
    value that has none, as the event of a failed reading).  So after a
    failed scan of an image that is held the alert is rendered, with that
    message. *)
Theorem error_message_shown (err : Thrown) (s : State) :
  is_Some (imageFile s) ->
  truthy_string (error_message err) = true /\
  errorAlert (render (handleScan_resume (Abrupt err) s))
    = Some (error_message err) /\
  match err with
  | Exn _ (c :: message) => error_message err = c :: message
  | _ => error_message err = str "An unknown error occurred."
  end.
Proof.
  intros [f Hf].
  assert (Htruthy : truthy_string (error_message err) = true)
    by (destruct err as [name [|c message]|]; reflexivity).
  split; [exact Htruthy|]. split.
  - unfold render, handleScan_resume. cbn. rewrite Hf. cbn.
    rewrite Htruthy. reflexivity.
  - destruct err as [name [|c message]|]; reflexivity.
Qed.

Lemma error_message_shown_witness :
  is_Some (imageFile (ui world_loading)) /\
  errorAlert (render (handleScan_resume (Abrupt ProgressEvent) (ui world_loading)))
    = Some (str "An unknown error occurred.").
Proof.
  assert (H : is_Some (imageFile (ui world_loading))) by (eexists; reflexivity).
  split; [exact H|].
  destruct (error_message_shown ProgressEvent (ui world_loading) H)
    as (_ & Halert & Hmsg).
  rewrite Halert, Hmsg. reflexivity.
Defined.

(** X10: a [change] event of the file input that holds no file changes
    nothing, and of the files it holds only the first one counts: it is
    the one stored, one object URL is made, for it, and no call is
    started. *)
Theorem handleFileChange_first_file (w w' : World) (files : list File) :
  dispatch (FileChange files) w = Some w' ->
  match files with
  | [] => w' = w
  | file :: others =>
      dispatch (FileChange [file]) w = Some w' /\
      imageFile (ui w') = Some file /\
      objectURLs w' = {[nextURL w]} ∪ objectURLs w /\
      inflight w' = inflight w
  end.
Proof.
  intros H. pose proof (dispatch_Some _ _ _ H) as [Himg ->].
  destruct files as [|file others]; [reflexivity|].
  split; [exact H|]. repeat split.
Qed.

Lemma handleFileChange_first_file_witness :
  dispatch (FileChange [carA; carB]) initialWorld = Some world_ready /\
  dispatch (FileChange [carA]) initialWorld = Some world_ready /\
  imageFile (ui world_ready) = Some carA.
Proof.
  assert (H : dispatch (FileChange [carA; carB]) initialWorld = Some world_ready)
    by reflexivity.
  split; [exact H|].
  destruct (handleFileChange_first_file _ _ _ H) as (H1 & H2 & _).
  split; [exact H1|exact H2].
Defined.

(** An image that is held has a preview. *)
Lemma reachable_preview (w : World) :
  reachable w -> is_Some (imageFile (ui w)) -> is_Some (previewUrl (ui w)).
Proof.
  induction 1 as [|w e w' _ IH _ Hstep]; [intros [f Hf]; discriminate Hf|].
  apply dispatch_Some in Hstep.
  destruct e as [[|file files]| | | |i outcome].
  - destruct Hstep as [_ ->]. exact IH.
  - destruct Hstep as [_ ->]. intros _. eexists. reflexivity.
  - destruct Hstep as (Himg & _ & _ & ->). intros _.
    unfold handleScan. destruct Himg as [f Hf]. rewrite Hf. cbn.
    apply IH. rewrite Hf. eexists. reflexivity.
  - destruct Hstep as [_ ->]. intros [f Hf].
    destruct w as [[f0 [p|] r l m] urls next calls]; discriminate Hf.
  - destruct Hstep as (_ & _ & ->). intros [f Hf].
    destruct w as [[f0 [p|] r l m] urls next calls]; discriminate Hf.
  - destruct Hstep as (_ & Hui & _). rewrite Hui.
    destruct outcome; exact IH.
Qed.

(** X11: in every world the application can be in, an image is held
    exactly when a preview is, the preview that the [img] element is
    given is then an object URL that is allocated (it was not revoked),
    and no other object URL is allocated. *)
Theorem preview_is_live (w : World) :
  reachable w ->
  (is_Some (imageFile (ui w)) <-> is_Some (previewUrl (ui w))) /\
  (is_Some (imageFile (ui w)) ->
   exists url, preview (render (ui w)) = Some url /\ objectURLs w = {[url]}) /\
  (imageFile (ui w) = None ->
   preview (render (ui w)) = None /\ objectURLs w = ∅).
Proof.
  intros Hw. pose proof (reachable_consistent _ Hw) as [Hnone Hurls].
  pose proof (reachable_preview _ Hw) as Hsome.
  unfold held_urls in Hurls. split; [split; [exact Hsome|]|split].
  - intros [url Hurl]. destruct (imageFile (ui w)) eqn:Himg; [eauto|].
    destruct (Hnone eq_refl) as [Hprev _]. rewrite Hprev in Hurl.
    discriminate Hurl.
  - intros Himg. destruct (Hsome Himg) as [url Hurl].
    exists url. rewrite Hurls, Hurl. split; [|reflexivity].
    unfold render. destruct Himg as [f ->]. exact Hurl.
  - intros Himg. destruct (Hnone Himg) as [Hprev _].
    rewrite Hurls, Hprev. split; [|reflexivity].
    unfold render. rewrite Himg. reflexivity.
Qed.

Lemma preview_is_live_witness :
  reachable world_loading /\
  preview (render (ui world_loading)) = Some 0%nat /\
  objectURLs world_loading = {[0%nat]}.
Proof.
  assert (Hw : reachable world_loading)
    by exact (reachable_waiting_reachable _ world_loading_waiting).
  split; [exact Hw|].
  destruct (preview_is_live _ Hw) as (_ & Hheld & _).
  destruct (Hheld (ex_intro _ carA eq_refl)) as (url & Hprev & Hurls).
  assert (url = 0%nat) as -> by (cbn in Hprev; injection Hprev as <-; reflexivity).
  split; [exact Hprev|exact Hurls].
Defined.

(** X12: in every world the application can be in, resets during a scan
    and late results included, the loading flag is on only while an image
    is held and the call started last is in flight, and that call is the
    scan of the image held. *)
Theorem loading_has_call (w : World) :
  reachable w ->
  isLoading (ui w) = true ->
  exists file, imageFile (ui w) = Some file /\ last (inflight w) = Some file.
Proof.
  induction 1 as [|w e w' Hw IH _ Hstep]; [discriminate|].
  pose proof (reachable_consistent _ Hw) as [Hnone _].
  apply dispatch_Some in Hstep.
  destruct e as [[|file files]| | | |i outcome].
  - destruct Hstep as [_ ->]. exact IH.
  - destruct Hstep as [Himg ->]. destruct (Hnone Himg) as [_ Hload].
    destruct w as [[f p r l m] urls next calls]. cbn in *.
    rewrite Hload. discriminate.
  - destruct Hstep as (Himg & _ & _ & ->). intros _.
    unfold handleScan. destruct Himg as [f Hf]. rewrite Hf. cbn.
    exists f. split; [exact Hf|apply last_snoc].
  - destruct Hstep as [_ ->].
    destruct w as [[f [p|] r l m] urls next calls]; discriminate.
  - destruct Hstep as (_ & _ & ->).
    destruct w as [[f [p|] r l m] urls next calls]; discriminate.
  - destruct Hstep as (_ & Hui & _). rewrite Hui.
    destruct outcome; discriminate.
Qed.

Lemma loading_has_call_witness :
  reachable world_loading /\ isLoading (ui world_loading) = true /\
  exists file,
    imageFile (ui world_loading) = Some file /\
    last (inflight world_loading) = Some file.
Proof.
  split; [exact (reachable_waiting_reachable _ world_loading_waiting)|].
  split; [reflexivity|].
  exact (loading_has_call world_loading
           (reachable_waiting_reachable _ world_loading_waiting) eq_refl).
Defined.

(** X13: [analyzeCarImage] is called by a click on the scan button and
    by nothing else, once, with the image that is held; a call that
    settles leaves the calls in flight one fewer, and the selection of a
    file and a reset leave them as they are: a reset cancels nothing. *)
Theorem calls_per_event (e : Event) (w w' : World) :
  dispatch e w = Some w' ->
  match e with
  | ClickScan =>
      exists file, imageFile (ui w) = Some file /\
                   inflight w' = inflight w ++ [file]
  | Settle i _ =>
      inflight w' = delete i (inflight w) /\
      S (length (inflight w')) = length (inflight w)
  | FileChange _ | ClickRemove | ClickScanAnother =>
      inflight w' = inflight w
  end.
Proof.
  intros H. apply dispatch_Some in H.
  destruct e as [[|file files]| | | |i outcome].
  - destruct H as [_ ->]. reflexivity.
  - destruct H as [_ ->]. reflexivity.
  - destruct H as ([file Hf] & _ & _ & ->). exists file.
    split; [exact Hf|]. unfold handleScan. rewrite Hf. reflexivity.
  - destruct H as [_ ->].
    destruct w as [[f [p|] r l m] urls next calls]; reflexivity.
  - destruct H as (_ & _ & ->).
    destruct w as [[f [p|] r l m] urls next calls]; reflexivity.
  - destruct H as (Hi & _ & _ & _ & Hfl). split; [exact Hfl|].
    rewrite Hfl, (length_delete _ _ Hi).
    apply lookup_lt_is_Some in Hi. lia.
Qed.

Lemma calls_per_event_witness :
  dispatch ClickScan world_ready = Some world_loading /\
  exists file, imageFile (ui world_ready) = Some file /\
               inflight world_loading = inflight world_ready ++ [file].
Proof.
  assert (H : dispatch ClickScan world_ready = Some world_loading) by reflexivity.
  split; [exact H|].
  exact (calls_per_event ClickScan world_ready world_loading H).
Defined.





